(** * Sonic Vision: the audio-to-video workflow of App.tsx and geminiService.ts

    A shallow embedding of the React component [App] (its state, its event
    handlers and the continuations of its asynchronous calls) and of the two
    service functions [analyzeAudioForPrompt] and [generateVeoVideo].

    - React state is a record; a [set...] call is a field update, and a
      commit runs the clean-up of the [videoUrl] effect.
    - A promise is represented by how it settles ([Settled]); a call that is
      still outstanding sits in a list of the [World] until its settlement
      event arrives.
    - The polling loop of [generateVeoVideo] is unbounded in the source; it
      is embedded with an iteration budget, [None] meaning "still polling". *)

From Stdlib Require Import ZArith QArith String Ascii List Lia DecimalString DecimalNat.
From stdpp Require Import base option list strings gmap.

Local Open Scope string_scope.
Local Open Scope list_scope.
Local Open Scope nat_scope.

(** ** JavaScript values *)

(** Truthiness of a string: only the empty string is falsy. *)
Definition truthy (s : string) : bool := negb (String.eqb s "").

(** Truthiness of a [string | null | undefined]. *)
Definition truthy_opt (o : option string) : bool :=
  match o with
  | Some s => truthy s
  | None => false
  end.

(** [a || b] where [a : string | undefined] and [b : string]. *)
Definition js_or (a : option string) (b : string) : string :=
  match a with
  | Some s => if truthy s then s else b
  | None => b
  end.

(** [`${x}`] for an [x : string | undefined]. *)
Definition templateText (x : option string) : string :=
  match x with
  | Some s => s
  | None => "undefined"
  end.

(** [s.split(c)] for a one-character separator. *)
Fixpoint js_split_go (c : ascii) (s : string) (cur : string) : list string :=
  match s with
  | EmptyString => [cur]
  | String a rest =>
      if Ascii.eqb a c then cur :: js_split_go c rest ""
      else js_split_go c rest (cur +:+ String a "")
  end.

Definition js_split (c : ascii) (s : string) : list string := js_split_go c s "".

(** How a promise settles. *)
Inductive Settled (A : Type) : Type :=
| Resolved (a : A)
| Rejected (message : string).
Arguments Resolved {A} a.
Arguments Rejected {A} message.

(** ** types.ts *)

Inductive AppStatus : Set :=
| IDLE | ANALYZING | REVIEW | GENERATING | COMPLETED | ERROR.

#[global] Instance AppStatus_eq_dec : EqDecision AppStatus.
Proof. solve_decision. Defined.

Record AudioFile : Set := mkAudioFile {
  name : string;
  type : string;
  base64 : option string;   (* [split(',')[1]]: undefined without a comma *)
  url : string
}.

(** ** Object URLs ([URL.createObjectURL] / [URL.revokeObjectURL]) *)

Record URLStore := mkURLStore {
  live : gset string;   (* URLs created and not yet revoked *)
  minted : nat          (* how many URLs were created so far *)
}.

Definition blobUrl (n : nat) : string :=
  "blob:" +:+ NilZero.string_of_uint (Nat.to_uint n).

Definition createObjectURL (u : URLStore) : string * URLStore :=
  let fresh := blobUrl (minted u) in
  (fresh, mkURLStore ({[fresh]} ∪ live u) (S (minted u))).

(** Revoking an absent URL does nothing. *)
Definition revokeObjectURL (x : string) (u : URLStore) : URLStore :=
  mkURLStore (live u ∖ {[x]}) (minted u).

(** ** geminiService.ts: analyzeAudioForPrompt *)

Record GenerateContentResponse := mkContent { text : option string }.

Definition fallbackPrompt : string :=
  "A futuristic abstract scene pulsing with neon colors.".

(** [client] is how [getClient()] ends, before the [try]: it returns, or the
    constructor throws and the promise rejects with that error; [reply]
    is how [ai.models.generateContent] settles, inside the [try]. *)
Definition analyzeAudioForPrompt (client : Settled ())
    (reply : Settled GenerateContentResponse) : Settled string :=
  match client with
  | Rejected message => Rejected message
  | Resolved _ =>
      match reply with
      | Resolved response => Resolved (js_or (text response) fallbackPrompt)
      | Rejected _ => Rejected "Failed to analyze audio content."
      end
  end.

(** ** geminiService.ts: generateVeoVideo *)

Record Video := mkVideo { uri : option string }.
Record GeneratedVideo := mkGeneratedVideo { video : option Video }.
Record GenerateVideosResponse := mkVideosResponse {
  generatedVideos : option (list GeneratedVideo)
}.
Record Operation := mkOperation {
  done : option bool;
  response : option GenerateVideosResponse
}.

Definition Blob := string.

Record FetchResponse := mkFetchResponse {
  ok : bool;
  statusText : string;
  blob : Settled Blob
}.

(** The environment and the remote side as the function sees them. *)
Record VeoService := mkVeoService {
  API_KEY : option string;                             (* process.env.API_KEY *)
  newGoogleGenAI : option string -> Settled ();        (* the constructor, by apiKey:
                                                          it returns or it throws *)
  models_generateVideos : string -> Settled Operation; (* by prompt *)
  getVideosOperation : nat -> Settled Operation;       (* k-th poll, from 0 *)
  fetch : string -> Settled FetchResponse              (* by URL *)
}.

(** [getClient = () => new GoogleGenAI({ apiKey: process.env.API_KEY })] *)
Definition getClient (svc : VeoService) : Settled () :=
  newGoogleGenAI svc (API_KEY svc).

(** The submission of a job as a whole: the client is made, then its
    [models.generateVideos] is called with the prompt. *)
Definition generateVideos (svc : VeoService) (prompt : string) : Settled Operation :=
  match getClient svc with
  | Resolved _ => models_generateVideos svc prompt
  | Rejected message => Rejected message
  end.

(** [!operation.done] *)
Definition not_done (op : Operation) : bool :=
  match done op with
  | Some true => false
  | _ => true
  end.

Definition pollIntervalMs : Z := 10000.

Record PollEnd := mkPollEnd {
  outcome : Settled Operation;
  polls : nat;      (* calls of getVideosOperation *)
  waitedMs : Z      (* total time spent in setTimeout *)
}.

(** [while (!operation.done) { await sleep(10000); operation = await poll }]
    with the operation in hand, [k] polls made and [t] ms waited so far. *)
Fixpoint pollLoop (fuel : nat) (svc : VeoService) (operation : Operation)
    (k : nat) (t : Z) : option PollEnd :=
  match fuel with
  | O => None
  | S fuel' =>
      if not_done operation then
        let t' := (t + pollIntervalMs)%Z in
        match getVideosOperation svc k with
        | Resolved operation' => pollLoop fuel' svc operation' (S k) t'
        | Rejected m => Some (mkPollEnd (Rejected m) (S k) t')
        end
      else Some (mkPollEnd (Resolved operation) k t)
  end.

(** [operation.response?.generatedVideos?.[0]?.video?.uri] *)
Definition videoUriOf (operation : Operation) : option string :=
  r ← response operation;
  vs ← generatedVideos r;
  g ← (vs : list GeneratedVideo) !! 0%nat;
  v ← video g;
  uri v.

Definition noVideoMessage : string := "No video URI returned from generation.".
Definition generationFailedMessage : string :=
  "Video generation failed. Please ensure you are using a paid billing project enabled for Veo.".

Record VeoRun := mkVeoRun {
  settled : Settled string;
  pollsMade : nat;
  waited : Z;
  urlsAfter : URLStore
}.

(** The body of the [try] block. *)
Definition veoTry (fuel : nat) (svc : VeoService) (prompt : string)
    (urls : URLStore) : option VeoRun :=
  match models_generateVideos svc prompt with
  | Rejected m => Some (mkVeoRun (Rejected m) 0 0 urls)
  | Resolved operation0 =>
      match pollLoop fuel svc operation0 0 0 with
      | None => None
      | Some (mkPollEnd (Rejected m) k t) => Some (mkVeoRun (Rejected m) k t urls)
      | Some (mkPollEnd (Resolved operation) k t) =>
          let videoUri := videoUriOf operation in
          if negb (truthy_opt videoUri) then
            Some (mkVeoRun (Rejected noVideoMessage) k t urls)
          else
            match fetch svc (default "" videoUri +:+ "&key="
                             +:+ templateText (API_KEY svc)) with
            | Rejected m => Some (mkVeoRun (Rejected m) k t urls)
            | Resolved response =>
                if negb (ok response) then
                  Some (mkVeoRun
                          (Rejected ("Failed to download video: " +:+ statusText response))
                          k t urls)
                else
                  match blob response with
                  | Rejected m => Some (mkVeoRun (Rejected m) k t urls)
                  | Resolved _ =>
                      let '(u, urls') := createObjectURL urls in
                      Some (mkVeoRun (Resolved u) k t urls')
                  end
            end
      end
  end.

(** [const ai = getClient();
     try { ... } catch (error) { throw new Error("Video generation failed...") }]:
    an exception of [getClient()] is outside the [try] and rejects the
    promise as it is. *)
Definition generateVeoVideo (fuel : nat) (svc : VeoService) (prompt : string)
    (urls : URLStore) : option VeoRun :=
  match getClient svc with
  | Rejected message => Some (mkVeoRun (Rejected message) 0 0 urls)
  | Resolved _ =>
      match veoTry fuel svc prompt urls with
      | None => None
      | Some run =>
          match settled run with
          | Resolved u => Some run
          | Rejected _ =>
              Some (mkVeoRun (Rejected generationFailedMessage)
                             (pollsMade run) (waited run) (urlsAfter run))
          end
      end
  end.

(** ** App.tsx: component state *)

Record ReactState := mkState {
  status : AppStatus;
  audioFile : option AudioFile;
  generatedPrompt : string;
  videoUrl : option string;
  error : option string;
  keySelected : bool
}.

Definition setStatus (v : AppStatus) (s : ReactState) : ReactState :=
  mkState v (audioFile s) (generatedPrompt s) (videoUrl s) (error s) (keySelected s).
Definition setAudioFile (v : option AudioFile) (s : ReactState) : ReactState :=
  mkState (status s) v (generatedPrompt s) (videoUrl s) (error s) (keySelected s).
Definition setGeneratedPrompt (v : string) (s : ReactState) : ReactState :=
  mkState (status s) (audioFile s) v (videoUrl s) (error s) (keySelected s).
Definition setVideoUrl (v : option string) (s : ReactState) : ReactState :=
  mkState (status s) (audioFile s) (generatedPrompt s) v (error s) (keySelected s).
Definition setError (v : option string) (s : ReactState) : ReactState :=
  mkState (status s) (audioFile s) (generatedPrompt s) (videoUrl s) v (keySelected s).
Definition setKeySelected (v : bool) (s : ReactState) : ReactState :=
  mkState (status s) (audioFile s) (generatedPrompt s) (videoUrl s) (error s) v.

(** The [useState] initial values. *)
Definition initialState : ReactState := mkState IDLE None "" None None false.

(** A file handed over by the file input. *)
Record File := mkFile {
  file_name : string;
  file_type : string;
  file_size : Z
}.

(** The component together with what it has started and not yet heard
    back from, and a record of the requests it has sent. *)
Record World := mkWorld {
  state : ReactState;
  urls : URLStore;
  readers : list File;                          (* readAsDataURL in progress *)
  analyses : list (option string * string);     (* analyzeAudioForPrompt outstanding *)
  jobs : list string;                           (* generateVeoVideo outstanding, by prompt *)
  analysisCalls : list (option string * string);(* every call of analyzeAudioForPrompt *)
  submittedJobs : list string                   (* every call of generateVeoVideo *)
}.

Definition initialWorld : World :=
  mkWorld initialState (mkURLStore ∅ 0) [] [] [] [] [].

(** The clean-up of [useEffect(..., [videoUrl])], run with the previous
    [videoUrl] whenever a commit changes it. *)
Definition videoUrlCleanup (prev : option string) (u : URLStore) : URLStore :=
  match prev with
  | Some v => if truthy v && String.prefix "blob:" v then revokeObjectURL v u else u
  | None => u
  end.

(** Committing the state [s'] computed by a handler. *)
Definition commit (s' : ReactState) (w : World) : World :=
  let u := if decide (videoUrl (state w) = videoUrl s') then urls w
           else videoUrlCleanup (videoUrl (state w)) (urls w) in
  mkWorld s' u (readers w) (analyses w) (jobs w) (analysisCalls w) (submittedJobs w).

Definition maxFileSize : Z := 8 * 1024 * 1024.

Definition tooLargeMessage : string :=
  "File is too large. Please upload an MP3 under 8MB.".

(** [handleFileChange], up to and including [reader.readAsDataURL(file)]. *)
Definition handleFileChange (files : list File) (w : World) : World :=
  match files with
  | file :: _ =>
      if (file_size file >? maxFileSize)%Z then
        commit (setError (Some tooLargeMessage) (state w)) w
      else
        mkWorld (state w) (urls w) (readers w ++ [file]) (analyses w) (jobs w)
                (analysisCalls w) (submittedJobs w)
  | [] => w
  end.

(** [performAnalysis], up to the [await]: the request goes out. *)
Definition performAnalysis (b64 : option string) (mimeType : string) (w : World) : World :=
  mkWorld (state w) (urls w) (readers w) (analyses w ++ [(b64, mimeType)]) (jobs w)
          (analysisCalls w ++ [(b64, mimeType)]) (submittedJobs w).

(** [reader.onload] of the [i]-th reader in progress, [result] being
    [event.target.result]. *)
Definition readerOnload (i : nat) (result : string) (w : World) : World :=
  match readers w !! i with
  | Some file =>
      let b64 := js_split "," result !! 1%nat in
      let '(u, urls') := createObjectURL (urls w) in
      let w1 := mkWorld (state w) urls' (delete i (readers w)) (analyses w) (jobs w)
                        (analysisCalls w) (submittedJobs w) in
      let s1 := setAudioFile (Some (mkAudioFile (file_name file) (file_type file) b64 u))
                             (state w1) in
      let s2 := setError None s1 in
      let s3 := setStatus ANALYZING s2 in
      performAnalysis b64 (file_type file) (commit s3 w1)
  | None => w
  end.

Definition analysisFailedMessage : string :=
  "Failed to analyze audio. Please try a different file or check your connection.".

(** [performAnalysis] after the [await], for the [i]-th outstanding call,
    given how [getClient()] ended in it and how its request settled. *)
Definition analysisSettledWith (client : Settled ()) (i : nat)
    (reply : Settled GenerateContentResponse) (w : World) : World :=
  match analyses w !! i with
  | Some _ =>
      let w1 := mkWorld (state w) (urls w) (readers w) (delete i (analyses w)) (jobs w)
                        (analysisCalls w) (submittedJobs w) in
      match analyzeAudioForPrompt client reply with
      | Resolved prompt =>
          commit (setStatus REVIEW (setGeneratedPrompt prompt (state w1))) w1
      | Rejected _ =>
          commit (setStatus IDLE (setError (Some analysisFailedMessage) (state w1))) w1
      end
  | None => w
  end.

(** The same with a client that could be made. A call whose client could
    not be made ends like one whose request is rejected, see
    [analysisSettledWith_no_client]. *)
Definition analysisSettled (i : nat) (reply : Settled GenerateContentResponse)
    (w : World) : World :=
  analysisSettledWith (Resolved ()) i reply w.

(** The textarea's [onChange]. *)
Definition handlePromptChange (v : string) (w : World) : World :=
  commit (setGeneratedPrompt v (state w)) w.

(** [handleGenerateVideo], up to the [await]: [generateVeoVideo] has been
    called. The handler is a closure of the render it was made in:
    [generatedPrompt] is the prompt of that render, while the setters act
    on the state of the component. *)
Definition handleGenerateVideoFrom (generatedPrompt : string) (w : World) : World :=
  if negb (truthy generatedPrompt) then w
  else
    let w1 := commit (setError None (setStatus GENERATING (state w))) w in
    mkWorld (state w1) (urls w1) (readers w1) (analyses w1) (jobs w1 ++ [generatedPrompt])
            (analysisCalls w1) (submittedJobs w1 ++ [generatedPrompt]).

(** The handler of a render that is up to date with the state. *)
Definition handleGenerateVideo (w : World) : World :=
  handleGenerateVideoFrom (generatedPrompt (state w)) w.

Definition generateFallbackMessage : string := "Failed to generate video.".

(** [handleGenerateVideo] after the [await], given how the promise of the
    [i]-th outstanding call settled. *)
Definition generateSettled (i : nat) (r : Settled string) (w : World) : World :=
  match jobs w !! i with
  | Some _ =>
      let w1 := mkWorld (state w) (urls w) (readers w) (analyses w) (delete i (jobs w))
                        (analysisCalls w) (submittedJobs w) in
      match r with
      | Resolved u =>
          commit (setStatus COMPLETED (setVideoUrl (Some u) (state w1))) w1
      | Rejected message =>
          commit (setStatus REVIEW
                    (setError (Some (js_or (Some message) generateFallbackMessage))
                              (state w1))) w1
      end
  | None => w
  end.

(** The [i]-th outstanding [generateVeoVideo] call runs to its end against
    [svc]; nothing happens while it has not settled within [fuel] rounds. *)
Definition jobSettled (i : nat) (fuel : nat) (svc : VeoService) (w : World) : World :=
  match jobs w !! i with
  | Some prompt =>
      match generateVeoVideo fuel svc prompt (urls w) with
      | Some run =>
          generateSettled i (settled run)
            (mkWorld (state w) (urlsAfter run) (readers w) (analyses w) (jobs w)
                     (analysisCalls w) (submittedJobs w))
      | None => w
      end
  | None => w
  end.

(** [handleReset]; the file input's value is not part of this model. *)
Definition handleReset (w : World) : World :=
  let s1 := setStatus IDLE (state w) in
  let s2 := setAudioFile None s1 in
  let s3 := setGeneratedPrompt "" s2 in
  let s4 := setVideoUrl None s3 in
  let s5 := setError None s4 in
  commit s5 w.

(** [handleSelectKey]: [None] when [window.aistudio] is absent, otherwise
    how [openSelectKey()] settled. *)
Definition handleSelectKey (r : option (Settled unit)) (w : World) : World :=
  match r with
  | None => w
  | Some (Resolved _) => commit (setKeySelected true (state w)) w
  | Some (Rejected _) =>
      commit (setError (Some "Failed to select API key. Please try again.") (state w)) w
  end.

(** ** App.tsx: what the JSX mounts *)

Inductive Control : Set :=
| SelectKeyButton | FileInput | PromptTextarea | CancelButton | GenerateButton
| CreateAnotherButton.

Definition present {A : Type} (o : option A) : bool :=
  match o with Some _ => true | None => false end.

Definition mounted (s : ReactState) (c : Control) : bool :=
  match c with
  | SelectKeyButton => negb (keySelected s)
  | FileInput => keySelected s && bool_decide (status s = IDLE)
  | PromptTextarea | CancelButton | GenerateButton =>
      keySelected s && bool_decide (status s = REVIEW) && present (audioFile s)
  | CreateAnotherButton =>
      keySelected s && bool_decide (status s = COMPLETED) && truthy_opt (videoUrl s)
      && present (audioFile s)
  end.

(** What the user can do, and what arrives from outside. *)
Inductive UserAction :=
| ChooseFiles (files : list File)
| EditPrompt (v : string)
| ClickCancel
| ClickGenerate
| ClickCreateAnother.

Definition controlOf (a : UserAction) : Control :=
  match a with
  | ChooseFiles _ => FileInput
  | EditPrompt _ => PromptTextarea
  | ClickCancel => CancelButton
  | ClickGenerate => GenerateButton
  | ClickCreateAnother => CreateAnotherButton
  end.

(** The handlers of the render of state [r]: only [handleGenerateVideo]
    reads a state variable. *)
Definition handlerOn (r : ReactState) (a : UserAction) : World -> World :=
  match a with
  | ChooseFiles files => handleFileChange files
  | EditPrompt v => handlePromptChange v
  | ClickCancel | ClickCreateAnother => handleReset
  | ClickGenerate => handleGenerateVideoFrom (generatedPrompt r)
  end.

(** An action on the screen as rendered from the state [r], which the
    component may have left behind since: the action reaches the handler
    of that render only through a control mounted in that render. *)
Definition userActionOn (r : ReactState) (a : UserAction) (w : World) : World :=
  if mounted r (controlOf a) then handlerOn r a w else w.

(** The handlers of a render that is up to date. *)
Definition handlerOf (a : UserAction) : World -> World :=
  match a with
  | ChooseFiles files => handleFileChange files
  | EditPrompt v => handlePromptChange v
  | ClickCancel | ClickCreateAnother => handleReset
  | ClickGenerate => handleGenerateVideo
  end.

(** An action after the component has re-rendered: the screen shows the
    current state. *)
Definition userAction (a : UserAction) (w : World) : World :=
  userActionOn (state w) a w.

(** ** Vocabulary of the statements *)

(** The operation [generateVeoVideo] holds after [n] polls: the submitted
    one, then the reply to the latest poll ([None] when that poll failed). *)
Definition held (svc : VeoService) (operation0 : Operation) (n : nat)
  : option Operation :=
  match n with
  | O => Some operation0
  | S j =>
      match getVideosOperation svc j with
      | Resolved operation => Some operation
      | Rejected _ => None
      end
  end.

(** None of the first [n] operations held was done. *)
Definition stillPolling (svc : VeoService) (operation0 : Operation) (n : nat) : Prop :=
  ∀ j, (j < n)%nat → ∃ operation, held svc operation0 j = Some operation
                            ∧ not_done operation = true.

(** The operation held after [n] polls is the first one that is done. *)
Definition doneAt (svc : VeoService) (operation0 : Operation) (n : nat) : Prop :=
  stillPolling svc operation0 n
  ∧ ∃ operation, held svc operation0 n = Some operation ∧ not_done operation = false.

(** Poll number [n] (from 0) is made and is the one that fails. *)
Definition errorAt (svc : VeoService) (operation0 : Operation) (n : nat) : Prop :=
  stillPolling svc operation0 (S n)
  ∧ ∃ m, getVideosOperation svc n = Rejected m.


(** A few concrete worlds, each reached from the initial one. *)
Definition clip : File := mkFile "clip.mp3" "audio/mpeg" 4096.

Definition keyedWorld : World := handleSelectKey (Some (Resolved tt)) initialWorld.

Definition analyzingWorld : World :=
  readerOnload 0 "data:audio/mpeg;base64,SUQz" (userAction (ChooseFiles [clip]) keyedWorld).

Definition reviewWorld : World :=
  analysisSettled 0 (Resolved (mkContent (Some "a neon cityscape at night")))
                  analyzingWorld.

Definition generatingWorld : World := userAction ClickGenerate reviewWorld.

(** A service whose job is done at the first look. *)
Definition serviceWith (vs : list GeneratedVideo) : VeoService :=
  mkVeoService (Some "k") (λ _, Resolved ())
    (λ _, Resolved (mkOperation (Some true) (Some (mkVideosResponse (Some vs)))))
    (λ _, Rejected "unused")
    (λ _, Resolved (mkFetchResponse true "OK" (Resolved "mp4"))).

Definition oneVideo : list GeneratedVideo :=
  [mkGeneratedVideo (Some (mkVideo (Some "https://veo.example/v1?alt=media")))].

Definition completedWorld : World := jobSettled 0 5 (serviceWith oneVideo) generatingWorld.

(** Two files chosen before either has been read: the file input is still
    mounted after the first choice, since the status only changes in
    [reader.onload]. Both analyses are started, and the first has resolved. *)
Definition racingReviewWorld : World :=
  let w1 := userAction (ChooseFiles [clip]) keyedWorld in
  let w2 := userAction (ChooseFiles [mkFile "other.wav" "audio/wav" 2048]) w1 in
  let w3 := readerOnload 0 "data:audio/mpeg;base64,SUQz" w2 in
  let w4 := readerOnload 0 "data:audio/wav;base64,UklG" w3 in
  analysisSettled 0 (Resolved (mkContent (Some "a neon cityscape at night"))) w4.

(** From there generate is clicked, and then the second analysis resolves. *)
Definition racingWorld : World :=
  analysisSettled 0 (Resolved (mkContent (Some "a calm sea at dawn")))
                  (userAction ClickGenerate racingReviewWorld).

(** No client: the constructor throws. *)
Definition clientFails (message : string) : VeoService :=
  mkVeoService None (λ _, Rejected message)
    (λ _, Rejected "unused") (λ _, Rejected "unused") (λ _, Rejected "unused").

(** A service that refuses the submission. *)
Definition submissionFails : VeoService :=
  mkVeoService (Some "k") (λ _, Resolved ()) (λ _, Rejected "403") (λ _, Rejected "unused") (λ _, Rejected "unused").

(** A service that is never done and never fails. *)
Definition neverDone : VeoService :=
  mkVeoService (Some "k") (λ _, Resolved ())
    (λ _, Resolved (mkOperation None None))
    (λ _, Resolved (mkOperation (Some false) None))
    (λ _, Rejected "unused").

(** A service that is done at the third poll. *)
Definition doneAtThird : VeoService :=
  mkVeoService (Some "k") (λ _, Resolved ())
    (λ _, Resolved (mkOperation None None))
    (λ k, Resolved (mkOperation (Some (bool_decide (2 ≤ k)%nat)) None))
    (λ _, Rejected "unused").

(** A service whose second poll fails. *)
Definition failsAtSecond : VeoService :=
  mkVeoService (Some "k") (λ _, Resolved ())
    (λ _, Resolved (mkOperation None None))
    (λ k, if bool_decide (k = 1%nat) then Rejected "503" else Resolved (mkOperation (Some false) None))
    (λ _, Rejected "unused").

(** ** App.tsx: the rest of the component *)

(** [checkApiKey], run by the mount effect: [None] when [window.aistudio]
    or its [hasSelectedApiKey] is absent, otherwise how the call settled.
    A rejection is only logged. *)
Definition checkApiKey (r : option (Settled bool)) (w : World) : World :=
  match r with
  | Some (Resolved hasKey) => commit (setKeySelected hasKey (state w)) w
  | Some (Rejected _) => w
  | None => w
  end.

(** The error banner: [{error && ...}], inside the branch taken when a key
    is selected. *)
Definition errorBanner (s : ReactState) : option string :=
  if keySelected s && truthy_opt (error s) then error s else None.

(** The cards of the main area. *)
Inductive Panel : Set :=
| KeyGate | UploadPanel | AnalyzingPanel | ReviewPanel | GeneratingPanel
| CompletedPanel.

(** [{cond && <div>...</div>}] *)
Definition shown (cond : bool) (p : Panel) : list Panel := if cond then [p] else [].

Definition panels (s : ReactState) : list Panel :=
  if negb (keySelected s) then [KeyGate]
  else
    shown (bool_decide (status s = IDLE)) UploadPanel
    ++ shown (bool_decide (status s = ANALYZING)) AnalyzingPanel
    ++ shown (bool_decide (status s = REVIEW) && present (audioFile s)) ReviewPanel
    ++ shown (bool_decide (status s = GENERATING)) GeneratingPanel
    ++ shown (bool_decide (status s = COMPLETED) && truthy_opt (videoUrl s)
              && present (audioFile s)) CompletedPanel.

#[global] Instance Panel_eq_dec : EqDecision Panel.
Proof. solve_decision. Defined.

(** The card a control sits on. *)
Definition panelOf (c : Control) : Panel :=
  match c with
  | SelectKeyButton => KeyGate
  | FileInput => UploadPanel
  | PromptTextarea | CancelButton | GenerateButton => ReviewPanel
  | CreateAnotherButton => CompletedPanel
  end.

(** ** Steps.tsx *)

Definition steps : list (AppStatus * string) :=
  [(IDLE, "Upload"); (ANALYZING, "Analyze"); (REVIEW, "Prompt");
   (GENERATING, "Generate"); (COMPLETED, "Result")].

(** [Array.prototype.findIndex]: -1 when no element satisfies [p]. *)
Fixpoint findIndexFrom {A : Type} (p : A → bool) (l : list A) (i : Z) : Z :=
  match l with
  | [] => (-1)%Z
  | x :: rest => if p x then i else findIndexFrom p rest (i + 1)%Z
  end.

Definition findIndex {A : Type} (p : A → bool) (l : list A) : Z := findIndexFrom p l 0.

Definition getStatusIndex (s : AppStatus) : Z :=
  if bool_decide (s = ERROR) then 0%Z
  else findIndex (λ step, bool_decide (fst step = s)) steps.

Record StepView := mkStepView {
  label : string;
  number : Z;          (* [index + 1], the digit in the circle *)
  isActive : bool;
  isCurrent : bool
}.

(** [steps.map((step, index) => ...)], from position [index] on. *)
Fixpoint stepViewsFrom (currentIndex : Z) (l : list (AppStatus * string)) (index : Z)
  : list StepView :=
  match l with
  | [] => []
  | step :: rest =>
      mkStepView (snd step) (index + 1) (index <=? currentIndex)%Z (index =? currentIndex)%Z
      :: stepViewsFrom currentIndex rest (index + 1)%Z
  end.

Definition stepViews (s : AppStatus) : list StepView :=
  stepViewsFrom (getStatusIndex s) steps 0.

(** [(currentIndex / (steps.length - 1)) * 100], the width of the bar in
    percent; the quotients by 4 are exact, so rationals stand for the
    doubles. *)
Definition progressWidth (s : AppStatus) : Q :=
  (inject_Z (getStatusIndex s) / inject_Z (Z.of_nat (length steps) - 1) * 100)%Q.

(** ** Runs of the component *)

(** Everything that can happen to the component: the mount effect's key
    check settles, a key selection settles, the user acts on a control of
    the re-rendered screen, a file reader finishes, an analysis or a job
    settles (a job against any service, with or without a client; an
    analysis without a client counts as a rejected one). Settlements are
    not constrained in time. *)
Inductive Event :=
| KeyChecked (r : option (Settled bool))
| KeyChosen (r : option (Settled unit))
| Acts (a : UserAction)
| ReaderLoads (i : nat) (result : string)
| AnalysisSettles (i : nat) (reply : Settled GenerateContentResponse)
| JobSettles (i : nat) (fuel : nat) (svc : VeoService).

Definition step (e : Event) (w : World) : World :=
  match e with
  | KeyChecked r => checkApiKey r w
  | KeyChosen r => handleSelectKey r w
  | Acts a => userAction a w
  | ReaderLoads i result => readerOnload i result w
  | AnalysisSettles i reply => analysisSettled i reply w
  | JobSettles i fuel svc => jobSettled i fuel svc w
  end.

Definition run (es : list Event) (w : World) : World :=
  fold_left (λ acc e, step e acc) es w.

(** With the two readers racing: cancel while the first job is
    outstanding, then the job resolves. *)
Definition blankWorld : World :=
  jobSettled 0 5 (serviceWith oneVideo) (userAction ClickCancel racingWorld).

(** An event that can switch [keySelected] on. *)
Definition grantsKey (e : Event) : bool :=
  match e with
  | KeyChecked (Some (Resolved true)) => true
  | KeyChosen (Some (Resolved _)) => true
  | _ => false
  end.

(** The object URLs the component holds are live, were made by
    [createObjectURL], and the audio and the video never share one. *)
Definition urlsSound (w : World) : Prop :=
  (∀ x, x ∈ live (urls w) → ∃ k, k < minted (urls w) ∧ x = blobUrl k)
  ∧ (∀ a, audioFile (state w) = Some a → url a ∈ live (urls w))
  ∧ (∀ v, videoUrl (state w) = Some v → v ∈ live (urls w))
  ∧ (∀ a, audioFile (state w) = Some a → videoUrl (state w) ≠ Some (url a)).

(** Reading back the number in a blob URL made by [blobUrl]. *)
Definition blobIndex (x : string) : option nat :=
  match x with
  | String _ (String _ (String _ (String _ (String _ digits)))) =>
      Nat.of_uint <$> NilZero.uint_of_string digits
  | _ => None
  end.

(** No comma in the string. *)
Fixpoint commaFree (s : string) : bool :=
  match s with
  | EmptyString => true
  | String a rest => negb (Ascii.eqb a ",") && commaFree rest
  end.

(** What [readAsDataURL] produces for a file of type [mimeType] whose
    content reads [payload] in base64; a file without a type is written
    as [application/octet-stream]. *)
Definition dataUrl (mimeType payload : string) : string :=
  "data:" +:+ (if truthy mimeType then mimeType else "application/octet-stream")
  +:+ ";base64," +:+ payload.

(** * Properties *)

(** ** JavaScript values *)

Lemma userAction_eq (a : UserAction) (w : World) :
  userAction a w = if mounted (state w) (controlOf a) then handlerOf a w else w.
Proof. destruct a; reflexivity. Qed.

Lemma truthy_true (s : string) : truthy s = true ↔ s ≠ "".
Proof.
  unfold truthy. destruct (String.eqb_spec s ""); simpl; split; congruence.
Qed.

Lemma truthy_false (s : string) : truthy s = false ↔ s = "".
Proof.
  unfold truthy. destruct (String.eqb_spec s ""); simpl; split; congruence.
Qed.

Lemma js_or_not_empty (a : option string) (b : string) : b ≠ "" → js_or a b ≠ "".
Proof.
  intros Hb. destruct a as [s|]; simpl; [|exact Hb].
  destruct (truthy s) eqn:E; [apply truthy_true, E | exact Hb].
Qed.


Lemma app_one_neq {A : Type} (l : list A) (x : A) : l ++ [x] ≠ l.
Proof.
  intros H. apply (f_equal length) in H. rewrite length_app in H. simpl in H. lia.
Qed.

(** ** The polling loop *)

Lemma stillPolling_weaken svc operation0 n m :
  m ≤ n → stillPolling svc operation0 n → stillPolling svc operation0 m.
Proof. intros Hle H j Hj. apply H. lia. Qed.

(** After [n] polls that all found the job unfinished the loop stands at
    the [n]-th held operation, having waited [n] intervals. *)
Lemma pollLoop_after svc operation0 n :
  stillPolling svc operation0 n →
  ∀ operation, held svc operation0 n = Some operation →
  ∀ fuel, pollLoop (n + fuel) svc operation0 0 0
          = pollLoop fuel svc operation n (pollIntervalMs * Z.of_nat n).
Proof.
  induction n as [|n IH]; intros Hstill operation Hheld fuel.
  - simpl in Hheld. injection Hheld as <-. reflexivity.
  - destruct (Hstill n) as (prev & Hprev & Hnd); [lia|].
    replace (S n + fuel) with (n + S fuel) by lia.
    rewrite (IH (stillPolling_weaken _ _ (S n) n (Nat.le_succ_diag_r n) Hstill)
                prev Hprev (S fuel)).
    simpl in Hheld. simpl. rewrite Hnd.
    destruct (getVideosOperation svc n) as [o|m]; [|discriminate].
    injection Hheld as ->. f_equal. unfold pollIntervalMs. lia.
Qed.

Lemma pollLoop_doneAt svc operation0 n operation :
  stillPolling svc operation0 n →
  held svc operation0 n = Some operation → not_done operation = false →
  ∀ fuel, pollLoop (n + S fuel) svc operation0 0 0
          = Some (mkPollEnd (Resolved operation) n (pollIntervalMs * Z.of_nat n)).
Proof.
  intros Hstill Hheld Hdone fuel.
  rewrite (pollLoop_after _ _ _ Hstill _ Hheld). simpl. rewrite Hdone. reflexivity.
Qed.

Lemma pollLoop_errorAt svc operation0 n m :
  stillPolling svc operation0 (S n) → getVideosOperation svc n = Rejected m →
  ∀ fuel, pollLoop (n + S fuel) svc operation0 0 0
          = Some (mkPollEnd (Rejected m) (S n) (pollIntervalMs * Z.of_nat (S n))).
Proof.
  intros Hstill Hrej fuel.
  destruct (Hstill n) as (prev & Hprev & Hnd); [lia|].
  rewrite (pollLoop_after _ _ n (stillPolling_weaken _ _ (S n) n (Nat.le_succ_diag_r n) Hstill)
                          _ Hprev).
  simpl. rewrite Hnd, Hrej. do 2 f_equal. unfold pollIntervalMs. lia.
Qed.

Lemma pollLoop_stillPolling svc operation0 n :
  stillPolling svc operation0 (S n) → pollLoop n svc operation0 0 0 = None.
Proof.
  intros Hstill. destruct (Hstill n) as (prev & Hprev & _); [lia|].
  replace n with (n + 0) at 1 by lia.
  rewrite (pollLoop_after _ _ n (stillPolling_weaken _ _ (S n) n (Nat.le_succ_diag_r n) Hstill)
                          _ Hprev).
  reflexivity.
Qed.

(** Either the loop has met its exit within [n] polls, or it is still going. *)
Lemma polling_progress svc operation0 n :
  (∃ j, j ≤ n ∧ (doneAt svc operation0 j ∨ errorAt svc operation0 j))
  ∨ stillPolling svc operation0 (S n).
Proof.
  induction n as [|n [(j & Hj & Hstop)|Hstill]].
  - destruct (not_done operation0) eqn:E.
    + right. intros j Hj. assert (j = 0) as -> by lia. exists operation0. auto.
    + left. exists 0. split; [lia|]. left. split; [intros j Hj; lia|].
      exists operation0. auto.
  - left. exists j. split; [lia|exact Hstop].
  - destruct (getVideosOperation svc n) as [o|m] eqn:E.
    + destruct (not_done o) eqn:Eo.
      * right. intros j Hj. destruct (decide (j = S n)) as [->|Hne].
        -- exists o. simpl. rewrite E. auto.
        -- apply Hstill. lia.
      * left. exists (S n). split; [lia|]. left. split; [exact Hstill|].
        exists o. simpl. rewrite E. auto.
    + left. exists n. split; [lia|]. right. split; [exact Hstill|]. exists m. exact E.
Qed.

(** A loop that has ended has ended in one of the two ways, and the number
    of polls it took is below the budget it was given. *)
Lemma pollLoop_ended svc operation0 fuel e :
  pollLoop fuel svc operation0 0 0 = Some e →
  ∃ n, n < fuel ∧
    ((doneAt svc operation0 n
      ∧ ∃ operation, held svc operation0 n = Some operation
          ∧ e = mkPollEnd (Resolved operation) n (pollIntervalMs * Z.of_nat n))
     ∨ (errorAt svc operation0 n
        ∧ ∃ m, getVideosOperation svc n = Rejected m
            ∧ e = mkPollEnd (Rejected m) (S n) (pollIntervalMs * Z.of_nat (S n)))).
Proof.
  intros He.
  destruct (polling_progress svc operation0 fuel) as [(j & Hj & Hstop)|Hstill].
  - destruct (decide (j = fuel)) as [->|Hne].
    + exfalso. destruct Hstop as [(Hstill & o & Hheld & _)|(Hstill & _)].
      * pose proof (pollLoop_after _ _ _ Hstill _ Hheld 0) as H.
        rewrite Nat.add_0_r, He in H. discriminate.
      * rewrite (pollLoop_stillPolling _ _ _ Hstill) in He. discriminate.
    + exists j. split; [lia|].
      replace fuel with (j + S (fuel - S j)) in He by lia.
      destruct Hstop as [Hd|Herr].
      * left. split; [exact Hd|]. destruct Hd as (Hstill & o & Hheld & Hdone).
        exists o. split; [exact Hheld|].
        rewrite (pollLoop_doneAt _ _ _ _ Hstill Hheld Hdone) in He. congruence.
      * right. split; [exact Herr|]. destruct Herr as (Hstill & m & Hrej).
        exists m. split; [exact Hrej|].
        rewrite (pollLoop_errorAt _ _ _ _ Hstill Hrej) in He. congruence.
  - rewrite (pollLoop_stillPolling _ _ _ Hstill) in He. discriminate.
Qed.

(** C8: the polling loop of [generateVeoVideo] waits 10 seconds before each
    poll, so an ended loop has waited 10 s times the number of polls; it ends
    with the first operation seen done, or with the first poll that fails;
    there is no attempt limit: while neither has happened it is still
    polling, after any number of polls; and it ends exactly when one of the
    two happens. *)
Theorem polling_policy (svc : VeoService) (operation0 : Operation) :
  pollIntervalMs = 10000%Z
  ∧ (∀ fuel e, pollLoop fuel svc operation0 0 0 = Some e →
       waitedMs e = (10000 * Z.of_nat (polls e))%Z)
  ∧ (∀ n operation,
       stillPolling svc operation0 n → held svc operation0 n = Some operation →
       not_done operation = false →
       ∀ fuel, n < fuel →
         pollLoop fuel svc operation0 0 0
         = Some (mkPollEnd (Resolved operation) n (10000 * Z.of_nat n)))
  ∧ (∀ n m,
       stillPolling svc operation0 (S n) → getVideosOperation svc n = Rejected m →
       ∀ fuel, n < fuel →
         pollLoop fuel svc operation0 0 0
         = Some (mkPollEnd (Rejected m) (S n) (10000 * Z.of_nat (S n))))
  ∧ (∀ n, stillPolling svc operation0 (S n) → pollLoop n svc operation0 0 0 = None)
  ∧ ((∃ fuel e, pollLoop fuel svc operation0 0 0 = Some e)
     ↔ ∃ n, doneAt svc operation0 n ∨ errorAt svc operation0 n).
Proof.
  split; [reflexivity|]. split; [|split; [|split; [|split]]].
  - intros fuel e He.
    destruct (pollLoop_ended _ _ _ _ He)
      as (n & _ & [(_ & o & _ & ->)|(_ & m & _ & ->)]); reflexivity.
  - intros n operation Hstill Hheld Hdone fuel Hlt.
    replace fuel with (n + S (fuel - S n)) by lia.
    apply pollLoop_doneAt; assumption.
  - intros n m Hstill Hrej fuel Hlt.
    replace fuel with (n + S (fuel - S n)) by lia.
    apply pollLoop_errorAt; assumption.
  - intros n. apply pollLoop_stillPolling.
  - split.
    + intros (fuel & e & He).
      destruct (pollLoop_ended _ _ _ _ He) as (n & _ & [(Hd & _)|(Herr & _)]);
        exists n; auto.
    + intros (n & [(Hstill & o & Hheld & Hdone)|(Hstill & m & Hrej)]);
        exists (n + 1); eexists.
      * apply (pollLoop_doneAt _ _ _ _ Hstill Hheld Hdone 0).
      * apply (pollLoop_errorAt _ _ _ _ Hstill Hrej 0).
Qed.

(** A service that never reports done and never fails is polled for ever. *)
Lemma neverDone_stillPolling (n : nat) :
  stillPolling neverDone (mkOperation None None) n.
Proof.
  intros j _. destruct j as [|j]; simpl; eexists; split; reflexivity.
Qed.

Lemma neverDone_polls_for_ever (fuel : nat) :
  pollLoop fuel neverDone (mkOperation None None) 0 0 = None.
Proof. apply pollLoop_stillPolling, neverDone_stillPolling. Qed.

Lemma polling_policy_witness :
  pollLoop 1000 neverDone (mkOperation None None) 0 0 = None
  ∧ pollLoop 7 doneAtThird (mkOperation None None) 0 0
    = Some (mkPollEnd (Resolved (mkOperation (Some true) None)) 3 30000)
  ∧ pollLoop 7 failsAtSecond (mkOperation None None) 0 0
    = Some (mkPollEnd (Rejected "503") 2 20000).
Proof.
  split; [|split].
  - apply (polling_policy neverDone (mkOperation None None)).
    apply neverDone_stillPolling.
  - apply (polling_policy doneAtThird (mkOperation None None)); [|reflexivity|reflexivity|lia].
    intros j Hj. destruct j as [|[|[|j]]]; simpl; try lia; eexists; split; reflexivity.
  - apply (polling_policy failsAtSecond (mkOperation None None)); [|reflexivity|lia].
    intros j Hj. destruct j as [|[|j]]; simpl; try lia; eexists; split; reflexivity.
Defined.

(** ** Commits *)

Lemma state_commit s' w : state (commit s' w) = s'.
Proof. reflexivity. Qed.

Lemma commit_same_videoUrl s' w :
  videoUrl s' = videoUrl (state w) → urls (commit s' w) = urls w.
Proof.
  intros H. unfold commit. simpl. rewrite H.
  destruct (decide (videoUrl (state w) = videoUrl (state w))); [reflexivity|contradiction].
Qed.

Lemma commit_same_state w : commit (state w) w = w.
Proof.
  unfold commit. destruct w as [s u rd an jb ac sj]. simpl.
  destruct (decide (videoUrl s = videoUrl s)); [reflexivity|contradiction].
Qed.

(** ** File selection *)

(** C7: an oversized file chosen while [Status = Idle] is rejected: the
    status stays [Idle], a non-empty error message is set, no audio file is
    stored, no reader is started and no analysis request goes out; the same
    holds when the choice comes through the mounted file input. *)
Theorem oversized_file_rejected (w : World) (file : File) (rest : list File)
    (Hidle : status (state w) = IDLE)
    (Hbig : (file_size file > 8 * 1024 * 1024)%Z) :
  let w' := handleFileChange (file :: rest) w in
  status (state w') = IDLE
  ∧ (∃ m, error (state w') = Some m ∧ m ≠ "")
  ∧ audioFile (state w') = audioFile (state w)
  ∧ readers w' = readers w
  ∧ analyses w' = analyses w
  ∧ analysisCalls w' = analysisCalls w
  ∧ (mounted (state w) FileInput = true →
     userAction (ChooseFiles (file :: rest)) w = w').
Proof.
  assert ((file_size file >? maxFileSize)%Z = true) as Hgt
    by (apply Z.gtb_lt; unfold maxFileSize; lia).
  assert (handleFileChange (file :: rest) w
          = commit (setError (Some tooLargeMessage) (state w)) w) as Hw
    by (unfold handleFileChange; rewrite Hgt; reflexivity).
  intros w'. subst w'. split; [|split; [|split; [|split; [|split; [|split]]]]].
  - rewrite Hw. exact Hidle.
  - exists tooLargeMessage. rewrite Hw. split; [reflexivity|discriminate].
  - rewrite Hw. reflexivity.
  - rewrite Hw. reflexivity.
  - rewrite Hw. reflexivity.
  - rewrite Hw. reflexivity.
  - intros Hm. rewrite !userAction_eq. cbn [controlOf handlerOf]. rewrite Hm. reflexivity.
Qed.

Lemma oversized_file_rejected_witness :
  let big := mkFile "long.mp3" "audio/mpeg" 8388609 in
  let w' := handleFileChange [big] keyedWorld in
  status (state keyedWorld) = IDLE
  ∧ (file_size big > 8 * 1024 * 1024)%Z
  ∧ status (state w') = IDLE
  ∧ error (state w') = Some tooLargeMessage
  ∧ readers w' = []
  ∧ userAction (ChooseFiles [big]) keyedWorld = w'.
Proof.
  intros big w'.
  assert (status (state keyedWorld) = IDLE) as Hidle by reflexivity.
  assert (file_size big > 8 * 1024 * 1024)%Z as Hbig by reflexivity.
  destruct (oversized_file_rejected keyedWorld big [] Hidle Hbig)
    as (H1 & _ & _ & H4 & _ & _ & H7).
  split; [exact Hidle|]. split; [exact Hbig|]. split; [exact H1|].
  split; [reflexivity|]. split; [exact H4|]. apply H7. reflexivity.
Defined.

(** C10: the size check is a strict [>] against 8*1024*1024 bytes: a file of
    that size or less is accepted (a reader is started for it, nothing else
    changes, and when the reader is through the audio file is stored, the
    status is [Analyzing] and one analysis request has gone out), and the
    rejection branch is taken exactly for sizes above it. *)
Theorem size_limit_is_strict (w : World) (file : File) (rest : list File) :
  let w' := handleFileChange (file :: rest) w in
  ((file_size file <= 8 * 1024 * 1024)%Z →
     w' = mkWorld (state w) (urls w) (readers w ++ [file]) (analyses w) (jobs w)
                  (analysisCalls w) (submittedJobs w)
     ∧ ∀ result,
         let w'' := readerOnload (length (readers w)) result w' in
         status (state w'') = ANALYZING
         ∧ (∃ a, audioFile (state w'') = Some a
                 ∧ name a = file_name file ∧ type a = file_type file)
         ∧ length (analysisCalls w'') = S (length (analysisCalls w)))
  ∧ (w' = commit (setError (Some tooLargeMessage) (state w)) w
     ∧ readers w' = readers w
     ↔ (file_size file > 8 * 1024 * 1024)%Z).
Proof.
  intros w'. subst w'. unfold handleFileChange.
  destruct (file_size file >? maxFileSize)%Z eqn:E.
  - apply Z.gtb_lt in E. unfold maxFileSize in E. split; [lia|].
    split; [lia|]. intros _. split; reflexivity.
  - assert (file_size file <= 8 * 1024 * 1024)%Z as Hle.
    { destruct (Z.gtb_spec (file_size file) maxFileSize) as [|Hle]; [discriminate|].
      unfold maxFileSize in Hle. lia. }
    split.
    + intros _. split; [reflexivity|]. intros result. unfold readerOnload. simpl.
      rewrite list_lookup_middle by reflexivity. simpl.
      split; [reflexivity|]. split; [eexists; split; [reflexivity|split; reflexivity]|].
      rewrite length_app. simpl. lia.
    + split; [|lia]. intros [_ Hr]. simpl in Hr. exfalso. exact (app_one_neq _ _ Hr).
Qed.

Lemma size_limit_is_strict_witness :
  let exact := mkFile "exact.mp3" "audio/mpeg" 8388608 in
  (file_size exact <= 8 * 1024 * 1024)%Z
  ∧ handleFileChange [exact] keyedWorld
    = mkWorld (state keyedWorld) (urls keyedWorld) [exact] [] [] [] [].
Proof.
  intros exact.
  assert (file_size exact <= 8 * 1024 * 1024)%Z as Hle by (simpl; lia).
  split; [exact Hle|].
  apply (proj1 (size_limit_is_strict keyedWorld exact []) Hle).
Defined.

(** ** Generate with an empty prompt *)

(** C9: with an empty [GeneratedPrompt], generate changes nothing at all:
    the whole world (status, audio file, prompt, video URL, error, the
    outstanding calls and the list of submitted jobs) is as before, whether
    the handler is called directly or through the button. *)
Theorem generate_with_empty_prompt_is_noop (w : World)
    (Hempty : generatedPrompt (state w) = "") :
  handleGenerateVideo w = w
  ∧ userAction ClickGenerate w = w
  ∧ submittedJobs (handleGenerateVideo w) = submittedJobs w.
Proof.
  assert (handleGenerateVideo w = w) as H
    by (unfold handleGenerateVideo, handleGenerateVideoFrom; rewrite Hempty; reflexivity).
  split; [exact H|]. split; [|rewrite H; reflexivity].
  rewrite !userAction_eq. cbn [controlOf handlerOf].
  destruct (mounted (state w) GenerateButton); [exact H|reflexivity].
Qed.

Lemma generate_with_empty_prompt_is_noop_witness :
  let w := userAction (EditPrompt "") reviewWorld in
  generatedPrompt (state w) = ""
  ∧ status (state w) = REVIEW
  ∧ handleGenerateVideo w = w.
Proof.
  intros w.
  assert (generatedPrompt (state w) = "") as Hempty by reflexivity.
  split; [exact Hempty|]. split; [reflexivity|].
  apply (generate_with_empty_prompt_is_noop w Hempty).
Defined.

(** ** Analysis *)

(** An analysis whose client could not be made ends like one whose request
    is rejected: [performAnalysis] never looks at the error. *)
Lemma analysisSettledWith_no_client (thrown m : string) (i : nat)
    (reply : Settled GenerateContentResponse) (w : World) :
  analysisSettledWith (Rejected thrown) i reply w = analysisSettled i (Rejected m) w.
Proof. reflexivity. Qed.

Lemma analysisSettledWith_client (i : nat) (reply : Settled GenerateContentResponse)
    (w : World) :
  analysisSettledWith (Resolved ()) i reply w = analysisSettled i reply w.
Proof. reflexivity. Qed.

(** C3: when the analysis call resolves while [Status = Analyzing], the
    status becomes [Review] and the prompt is the text of the response,
    except that an empty (or absent) text is replaced by the fallback
    sentence; the step does not fail. *)
Theorem analysis_resolution_sets_prompt (w : World) (i : nat)
    (response : GenerateContentResponse)
    (Hstatus : status (state w) = ANALYZING)
    (Hout : is_Some (analyses w !! i)) :
  let w' := analysisSettled i (Resolved response) w in
  status (state w') = REVIEW
  ∧ (∀ t, text response = Some t → t ≠ "" → generatedPrompt (state w') = t)
  ∧ (text response = Some "" ∨ text response = None →
     generatedPrompt (state w') = fallbackPrompt)
  ∧ error (state w') = error (state w)
  ∧ analyses w' = delete i (analyses w).
Proof.
  destruct Hout as [c Hc]. intros w'. subst w'. unfold analysisSettled, analysisSettledWith.
  rewrite Hc. simpl. split; [reflexivity|]. split; [|split; [|split; reflexivity]].
  - intros t -> Ht. simpl. apply truthy_true in Ht. rewrite Ht. reflexivity.
  - intros [-> | ->]; reflexivity.
Qed.

Lemma analysis_resolution_sets_prompt_witness :
  status (state analyzingWorld) = ANALYZING
  ∧ is_Some (analyses analyzingWorld !! 0)
  ∧ generatedPrompt
      (state (analysisSettled 0 (Resolved (mkContent (Some "a neon cityscape at night")))
                              analyzingWorld))
    = "a neon cityscape at night"
  ∧ generatedPrompt
      (state (analysisSettled 0 (Resolved (mkContent (Some ""))) analyzingWorld))
    = fallbackPrompt.
Proof.
  assert (status (state analyzingWorld) = ANALYZING) as Hs by reflexivity.
  assert (is_Some (analyses analyzingWorld !! 0)) as Ho by (eexists; reflexivity).
  split; [exact Hs|]. split; [exact Ho|]. split.
  - apply (analysis_resolution_sets_prompt analyzingWorld 0
             (mkContent (Some "a neon cityscape at night")) Hs Ho);
      [reflexivity|discriminate].
  - apply (analysis_resolution_sets_prompt analyzingWorld 0 (mkContent (Some "")) Hs Ho).
    left. reflexivity.
Defined.

(** ** Reset *)

(** What [handleReset] does do: the status is [Idle], the four fields are
    cleared, a blob video URL is revoked, and calls that are outstanding
    stay outstanding. *)
Lemma handleReset_clears (w : World) :
  state (handleReset w) = mkState IDLE None "" None None (keySelected (state w))
  ∧ (∀ v, videoUrl (state w) = Some v → String.prefix "blob:" v = true →
          (v ∉ live (urls (handleReset w))))
  ∧ readers (handleReset w) = readers w
  ∧ analyses (handleReset w) = analyses w
  ∧ jobs (handleReset w) = jobs w
  ∧ submittedJobs (handleReset w) = submittedJobs w.
Proof.
  split; [reflexivity|]. split; [|repeat split; reflexivity].
  intros v Hv Hblob. unfold handleReset, commit. simpl. rewrite Hv.
  destruct (decide (Some v = None)) as [|_]; [discriminate|].
  simpl. assert (truthy v = true) as ->.
  { apply truthy_true. intros E. rewrite E in Hblob. discriminate Hblob. }
  rewrite Hblob. simpl. intros Hin. apply elem_of_difference in Hin.
  destruct Hin as [_ Hin]. apply Hin, elem_of_singleton. reflexivity.
Qed.

(** No commit revokes the URL of the audio file, and [handleReset] drops
    the only reference to it. *)
Lemma handleReset_keeps_audio_url (w : World) (a : AudioFile) :
  audioFile (state w) = Some a → url a ∈ live (urls w) →
  videoUrl (state w) ≠ Some (url a) →
  url a ∈ live (urls (handleReset w)) ∧ audioFile (state (handleReset w)) = None.
Proof.
  intros Ha Hlive Hne. split; [|reflexivity].
  unfold handleReset, commit. simpl.
  destruct (decide (videoUrl (state w) = None)) as [|_]; [exact Hlive|].
  unfold videoUrlCleanup. destruct (videoUrl (state w)) as [v|]; [|exact Hlive].
  destruct (truthy v && String.prefix "blob:" v); [|exact Hlive].
  simpl. apply elem_of_difference. split; [exact Hlive|].
  rewrite elem_of_singleton. congruence.
Qed.

(** C6: reset from the completed state, where the audio file holds the
    object URL blob:0 and the video the object URL blob:1. The status
    becomes [Idle], the fields are cleared and the video URL is revoked,
    but the audio URL is still live afterwards: [handleReset] does not
    release the handle of the audio file. *)
Theorem reset_leaves_audio_url_live :
  let w := userAction ClickCreateAnother completedWorld in
  (url <$> audioFile (state completedWorld)) = Some "blob:0"
  ∧ videoUrl (state completedWorld) = Some "blob:1"
  ∧ "blob:0" ∈ live (urls completedWorld)
  ∧ "blob:1" ∈ live (urls completedWorld)
  ∧ state w = mkState IDLE None "" None None true
  ∧ ("blob:1" ∉ live (urls w))
  ∧ "blob:0" ∈ live (urls w).
Proof.
  repeat split; compute_done.
Qed.

(** ** Generate *)

Lemma handleGenerateVideo_submits (w : World) :
  generatedPrompt (state w) ≠ "" →
  state (handleGenerateVideo w)
  = setError None (setStatus GENERATING (state w))
  ∧ urls (handleGenerateVideo w) = urls w
  ∧ jobs (handleGenerateVideo w) = jobs w ++ [generatedPrompt (state w)]
  ∧ submittedJobs (handleGenerateVideo w)
    = submittedJobs w ++ [generatedPrompt (state w)].
Proof.
  intros Hp. apply truthy_true in Hp. unfold handleGenerateVideo, handleGenerateVideoFrom. rewrite Hp. simpl.
  repeat split. destruct (decide (videoUrl (state w) = videoUrl (state w)));
    [reflexivity|contradiction].
Qed.

(** A submission that resolved had a client. *)
Lemma generateVideos_resolved svc prompt operation0 :
  generateVideos svc prompt = Resolved operation0 →
  getClient svc = Resolved () ∧ models_generateVideos svc prompt = Resolved operation0.
Proof.
  unfold generateVideos. destruct (getClient svc) as [[]|m]; [auto|discriminate].
Qed.

(** An operation the loop hands back is done. *)
Lemma pollLoop_resolved_done svc operation0 fuel operation k t :
  pollLoop fuel svc operation0 0 0 = Some (mkPollEnd (Resolved operation) k t) →
  not_done operation = false.
Proof.
  intros He. destruct (pollLoop_ended _ _ _ _ He)
    as (n & _ & [((_ & o & Ho & Hd) & o' & Ho' & E)|(_ & m & _ & E)]); [|discriminate].
  injection E as -> _ _. congruence.
Qed.

(** A done operation without a first video makes [generateVeoVideo] reject,
    and what it rejects with is the message of its [catch] block. *)
Lemma generateVeoVideo_no_video svc fuel prompt u operation0 operation k t :
  generateVideos svc prompt = Resolved operation0 →
  pollLoop fuel svc operation0 0 0 = Some (mkPollEnd (Resolved operation) k t) →
  truthy_opt (videoUriOf operation) = false →
  generateVeoVideo fuel svc prompt u
  = Some (mkVeoRun (Rejected generationFailedMessage) k t u).
Proof.
  intros Hs Hp Hv. destruct (generateVideos_resolved _ _ _ Hs) as [Hc Hm].
  unfold generateVeoVideo, veoTry. rewrite Hc, Hm, Hp, Hv. reflexivity.
Qed.

(** C5: the job is submitted, polling ends with a done operation whose list
    of generated videos is empty. The status goes back to [Review], the
    prompt (and the video URL) are as before the submission, and the error
    is the message of the [catch] block of [generateVeoVideo], which is the
    one shown for every failure of the job. *)
Theorem no_video_returns_to_review (w : World) (svc : VeoService) (fuel : nat)
    (operation0 operation : Operation) (k : nat) (t : Z)
    (r : GenerateVideosResponse)
    (Hprompt : generatedPrompt (state w) ≠ "")
    (Hsubmit : generateVideos svc (generatedPrompt (state w)) = Resolved operation0)
    (Hpoll : pollLoop fuel svc operation0 0 0 = Some (mkPollEnd (Resolved operation) k t))
    (Hresponse : response operation = Some r)
    (Hnone : generatedVideos r = Some []) :
  let w1 := handleGenerateVideo w in
  let w2 := jobSettled (length (jobs w)) fuel svc w1 in
  status (state w1) = GENERATING
  ∧ submittedJobs w1 = submittedJobs w ++ [generatedPrompt (state w)]
  ∧ not_done operation = false
  ∧ status (state w2) = REVIEW
  ∧ error (state w2) = Some generationFailedMessage
  ∧ generatedPrompt (state w2) = generatedPrompt (state w)
  ∧ videoUrl (state w2) = videoUrl (state w)
  ∧ jobs w2 = jobs w
  ∧ submittedJobs w2 = submittedJobs w1.
Proof.
  intros w1 w2.
  destruct (handleGenerateVideo_submits w Hprompt) as (Hst & Hurls & Hjobs & Hsub).
  fold w1 in Hst, Hurls, Hjobs, Hsub.
  assert (truthy_opt (videoUriOf operation) = false) as Hv.
  { unfold videoUriOf. rewrite Hresponse. simpl. rewrite Hnone. reflexivity. }
  assert (jobs w1 !! length (jobs w) = Some (generatedPrompt (state w))) as Hlook.
  { rewrite Hjobs. apply list_lookup_middle. reflexivity. }
  assert (w2 = commit (setStatus REVIEW
                         (setError (Some generationFailedMessage) (state w1)))
                      (mkWorld (state w1) (urls w1) (readers w1) (analyses w1)
                               (delete (length (jobs w)) (jobs w1))
                               (analysisCalls w1) (submittedJobs w1))) as Hw2.
  { subst w2. unfold jobSettled. rewrite Hlook.
    rewrite (generateVeoVideo_no_video _ _ _ _ _ _ _ _ Hsubmit Hpoll Hv).
    unfold generateSettled. simpl. rewrite Hlook. reflexivity. }
  split; [rewrite Hst; reflexivity|]. split; [exact Hsub|].
  split; [exact (pollLoop_resolved_done _ _ _ _ _ _ Hpoll)|].
  rewrite Hw2. simpl. rewrite Hst, Hjobs. simpl.
  repeat split. rewrite delete_middle. apply app_nil_r.
Qed.

Lemma no_video_returns_to_review_witness :
  let w2 := jobSettled 0 5 (serviceWith []) (handleGenerateVideo reviewWorld) in
  status (state w2) = REVIEW
  ∧ error (state w2) = Some generationFailedMessage
  ∧ generatedPrompt (state w2) = "a neon cityscape at night".
Proof.
  destruct (no_video_returns_to_review reviewWorld (serviceWith []) 5
              (mkOperation (Some true) (Some (mkVideosResponse (Some []))))
              (mkOperation (Some true) (Some (mkVideosResponse (Some []))))
              0 0%Z (mkVideosResponse (Some [])))
    as (_ & _ & _ & H1 & H2 & H3 & _); try reflexivity; [discriminate|].
  split; [exact H1|]. split; [exact H2|exact H3].
Defined.

(** The claim C5 as stated fails on this run: the job of [serviceWith []]
    is done with an empty list of videos, and the error shown is not the
    "No video URI returned" message thrown for that case but the same
    message, and the same state, as when the submission itself is refused. *)
Lemma no_video_error_is_the_generic_one :
  let w2 := jobSettled 0 5 (serviceWith []) generatingWorld in
  status (state w2) = REVIEW
  ∧ error (state w2)
    = Some "Video generation failed. Please ensure you are using a paid billing project enabled for Veo."
  ∧ error (state w2) ≠ Some noVideoMessage
  ∧ state w2 = state (jobSettled 0 5 submissionFails generatingWorld).
Proof.
  split; [reflexivity|]. split; [reflexivity|]. split; [discriminate|reflexivity].
Qed.

(** The claim C1 as stated fails: in [generatingWorld] one request is
    outstanding, and [handleGenerateVideo] sends a second one. Mounting
    does not keep requests apart in every state either: with two file
    readers racing, the late analysis brings the status back to [Review]
    while the first job is outstanding, the button is mounted again and a
    click sends a second job. *)
Lemma second_generate_submits_again :
  status (state generatingWorld) = GENERATING
  ∧ jobs generatingWorld = ["a neon cityscape at night"]
  ∧ submittedJobs generatingWorld = ["a neon cityscape at night"]
  ∧ handleGenerateVideo generatingWorld ≠ generatingWorld
  ∧ submittedJobs (handleGenerateVideo generatingWorld)
    = ["a neon cityscape at night"; "a neon cityscape at night"]
  ∧ submittedJobs (handleGenerateVideo (handleGenerateVideo reviewWorld))
    = ["a neon cityscape at night"; "a neon cityscape at night"]
  ∧ status (state racingWorld) = REVIEW
  ∧ jobs racingWorld = ["a neon cityscape at night"]
  ∧ mounted (state racingWorld) GenerateButton = true
  ∧ jobs (userAction ClickGenerate racingWorld)
    = ["a neon cityscape at night"; "a calm sea at dawn"].
Proof.
  split; [reflexivity|]. split; [reflexivity|]. split; [reflexivity|].
  split; [|repeat split; reflexivity].
  intros H. apply (f_equal submittedJobs) in H. discriminate H.
Qed.

Lemma handleGenerateVideoFrom_submits (prompt : string) (w : World) :
  prompt ≠ "" →
  status (state (handleGenerateVideoFrom prompt w)) = GENERATING
  ∧ jobs (handleGenerateVideoFrom prompt w) = jobs w ++ [prompt]
  ∧ submittedJobs (handleGenerateVideoFrom prompt w) = submittedJobs w ++ [prompt].
Proof.
  intros Hp. apply truthy_true in Hp. unfold handleGenerateVideoFrom. rewrite Hp.
  repeat split.
Qed.

(** C1: [handleGenerateVideo] has no check for an outstanding request:
    called with a non-empty prompt it submits a job, whatever the status
    and whatever is outstanding, so two clicks that reach the handler of
    one and the same render submit two jobs. What keeps requests apart is
    only that the generate button is mounted in [Review] alone: on a
    screen rendered with the status [Generating] a click cannot reach the
    handler and changes nothing; so of two clicks with a re-render in
    between, on a mounted button with a non-empty prompt, the first submits
    one job and leaves [Generating], the second is dropped, and exactly one
    job is submitted across the two. *)
Theorem generate_button_single_flight (w : World) :
  (generatedPrompt (state w) ≠ "" →
     submittedJobs (handleGenerateVideo w)
     = submittedJobs w ++ [generatedPrompt (state w)]
     ∧ jobs (handleGenerateVideo w) = jobs w ++ [generatedPrompt (state w)])
  ∧ (∀ r, mounted r GenerateButton = true → generatedPrompt r ≠ "" →
       let w2 := userActionOn r ClickGenerate (userActionOn r ClickGenerate w) in
       submittedJobs w2 = submittedJobs w ++ [generatedPrompt r; generatedPrompt r]
       ∧ jobs w2 = jobs w ++ [generatedPrompt r; generatedPrompt r])
  ∧ (∀ r, status r = GENERATING →
       mounted r GenerateButton = false ∧ userActionOn r ClickGenerate w = w)
  ∧ (status (state w) = GENERATING →
     mounted (state w) GenerateButton = false ∧ userAction ClickGenerate w = w)
  ∧ (mounted (state w) GenerateButton = true → generatedPrompt (state w) ≠ "" →
     let w1 := userAction ClickGenerate w in
     let w2 := userAction ClickGenerate w1 in
     status (state w1) = GENERATING
     ∧ w2 = w1
     ∧ submittedJobs w2 = submittedJobs w ++ [generatedPrompt (state w)]
     ∧ jobs w2 = jobs w ++ [generatedPrompt (state w)]).
Proof.
  assert (∀ r x, status r = GENERATING →
               mounted r GenerateButton = false
               ∧ userActionOn r ClickGenerate x = x) as Hgen.
  { intros r x Hr. assert (mounted r GenerateButton = false) as Hm.
    { unfold mounted. rewrite Hr. destruct (keySelected r); reflexivity. }
    split; [exact Hm|]. unfold userActionOn. cbn [controlOf]. rewrite Hm. reflexivity. }
  split; [|split; [|split; [|split]]].
  - intros Hp. destruct (handleGenerateVideo_submits w Hp) as (_ & _ & Hjobs & Hsub).
    split; assumption.
  - intros r Hm Hp w2. subst w2. unfold userActionOn. cbn [controlOf handlerOn].
    rewrite Hm.
    destruct (handleGenerateVideoFrom_submits (generatedPrompt r) w Hp)
      as (_ & Hj1 & Hs1).
    destruct (handleGenerateVideoFrom_submits (generatedPrompt r)
                (handleGenerateVideoFrom (generatedPrompt r) w) Hp) as (_ & Hj2 & Hs2).
    rewrite Hs2, Hs1, Hj2, Hj1, <- !app_assoc. split; reflexivity.
  - intros r Hr. apply Hgen, Hr.
  - intros Hs. exact (Hgen (state w) w Hs).
  - intros Hm Hp w1 w2.
    assert (w1 = handleGenerateVideo w) as Hw1.
    { subst w1. rewrite userAction_eq. cbn [controlOf handlerOf]. rewrite Hm. reflexivity. }
    destruct (handleGenerateVideo_submits w Hp) as (Hst & _ & Hjobs & Hsub).
    rewrite <- Hw1 in Hst, Hjobs, Hsub.
    assert (status (state w1) = GENERATING) as Hs1 by (rewrite Hst; reflexivity).
    assert (w2 = w1) as Hw2 by (exact (proj2 (Hgen (state w1) w1 Hs1))).
    split; [exact Hs1|]. split; [exact Hw2|]. rewrite Hw2. split; assumption.
Qed.

Lemma generate_button_single_flight_witness :
  mounted (state reviewWorld) GenerateButton = true
  ∧ generatedPrompt (state reviewWorld) ≠ ""
  ∧ submittedJobs (userActionOn (state reviewWorld) ClickGenerate
                     (userActionOn (state reviewWorld) ClickGenerate reviewWorld))
    = submittedJobs reviewWorld
      ++ [generatedPrompt (state reviewWorld); generatedPrompt (state reviewWorld)]
  ∧ submittedJobs (userAction ClickGenerate (userAction ClickGenerate reviewWorld))
    = submittedJobs reviewWorld ++ [generatedPrompt (state reviewWorld)]
  ∧ status (state generatingWorld) = GENERATING
  ∧ userAction ClickGenerate generatingWorld = generatingWorld.
Proof.
  assert (mounted (state reviewWorld) GenerateButton = true) as Hm by reflexivity.
  assert (generatedPrompt (state reviewWorld) ≠ "") as Hp by discriminate.
  assert (status (state generatingWorld) = GENERATING) as Hs by reflexivity.
  destruct (generate_button_single_flight reviewWorld) as (_ & Hsame & _ & _ & Hfresh).
  destruct (generate_button_single_flight generatingWorld) as (_ & _ & _ & Hgen & _).
  split; [exact Hm|]. split; [exact Hp|].
  split; [exact (proj1 (Hsame (state reviewWorld) Hm Hp))|].
  split; [|split; [exact Hs|exact (proj2 (Hgen Hs))]].
  destruct (Hfresh Hm Hp) as (_ & _ & H & _). exact H.
Defined.

(** ** Late results *)

(** The claim C2 as stated fails: reset while the job of [generatingWorld]
    is outstanding gives [Idle], and when the job then resolves the status
    is [Completed] with a video URL; when it rejects, [Review] with an
    error; and an analysis that resolves after a reset leaves [Review].
    The last also happens through mounted controls alone: in
    [racingReviewWorld] the cancel button is mounted while the second
    analysis is outstanding. *)
Lemma late_result_applied_after_reset :
  let w0 := handleReset generatingWorld in
  status (state w0) = IDLE
  ∧ jobs w0 = ["a neon cityscape at night"]
  ∧ state (jobSettled 0 5 (serviceWith oneVideo) w0)
    = mkState COMPLETED None "" (Some "blob:1") None true
  ∧ state (jobSettled 0 5 (serviceWith []) w0)
    = mkState REVIEW None "" None (Some generationFailedMessage) true
  ∧ state (analysisSettled 0 (Resolved (mkContent (Some "a calm sea at dawn")))
                           (handleReset analyzingWorld))
    = mkState REVIEW None "a calm sea at dawn" None None true
  ∧ mounted (state racingReviewWorld) CancelButton = true
  ∧ analyses racingReviewWorld = [(Some "UklG", "audio/wav")]
  ∧ state (userAction ClickCancel racingReviewWorld)
    = mkState IDLE None "" None None true
  ∧ state (analysisSettled 0 (Resolved (mkContent (Some "a calm sea at dawn")))
                           (userAction ClickCancel racingReviewWorld))
    = mkState REVIEW None "a calm sea at dawn" None None true.
Proof. repeat split; reflexivity. Qed.

(** C2: reset sets [Idle] and clears the audio file, the prompt, the video
    URL and the error at once, and leaves the outstanding calls
    outstanding. Nothing discards their results: a job that resolves
    afterwards sets [Completed] and the video URL, one that rejects sets
    [Review] and an error; an analysis that resolves sets [Review] and the
    prompt, one that rejects sets [Idle] and an error. No reset control is
    mounted while the status is [Analyzing] or [Generating]. *)
Theorem reset_keeps_late_results (w : World) :
  let w0 := handleReset w in
  state w0 = mkState IDLE None "" None None (keySelected (state w))
  ∧ jobs w0 = jobs w
  ∧ analyses w0 = analyses w
  ∧ (∀ i r, is_Some (jobs w !! i) →
       let w1 := generateSettled i r w0 in
       match r with
       | Resolved u => status (state w1) = COMPLETED ∧ videoUrl (state w1) = Some u
       | Rejected m =>
           status (state w1) = REVIEW
           ∧ error (state w1) = Some (js_or (Some m) generateFallbackMessage)
       end)
  ∧ (∀ i reply, is_Some (analyses w !! i) →
       let w1 := analysisSettled i reply w0 in
       match reply with
       | Resolved response =>
           status (state w1) = REVIEW
           ∧ generatedPrompt (state w1) = js_or (text response) fallbackPrompt
       | Rejected _ =>
           status (state w1) = IDLE ∧ error (state w1) = Some analysisFailedMessage
       end)
  ∧ (status (state w) = ANALYZING ∨ status (state w) = GENERATING →
     mounted (state w) CancelButton = false
     ∧ mounted (state w) CreateAnotherButton = false).
Proof.
  intros w0. split; [reflexivity|]. split; [reflexivity|]. split; [reflexivity|].
  split; [|split].
  - intros i r [p Hp] w1. subst w1. unfold generateSettled.
    change (jobs w0) with (jobs w). rewrite Hp. destruct r; split; reflexivity.
  - intros i reply [c Hc] w1. subst w1. unfold analysisSettled, analysisSettledWith.
    change (analyses w0) with (analyses w). rewrite Hc. destruct reply; split; reflexivity.
  - intros [H|H]; unfold mounted; rewrite H;
      destruct (keySelected (state w)); split; reflexivity.
Qed.

Lemma reset_keeps_late_results_witness :
  is_Some (jobs generatingWorld !! 0)
  ∧ status (state (generateSettled 0 (Resolved "blob:7") (handleReset generatingWorld)))
    = COMPLETED
  ∧ videoUrl (state (generateSettled 0 (Resolved "blob:7") (handleReset generatingWorld)))
    = Some "blob:7".
Proof.
  assert (is_Some (jobs generatingWorld !! 0)) as Hj by (eexists; reflexivity).
  split; [exact Hj|].
  destruct (reset_keeps_late_results generatingWorld) as (_ & _ & _ & H & _).
  exact (H 0 (Resolved "blob:7") Hj).
Defined.

(** ** The prompt invariant *)








(** * Further properties *)

(** ** Strings *)

Lemma append_cons (a : ascii) (s t : string) : String a s +:+ t = String a (s +:+ t).
Proof. reflexivity. Qed.

Lemma append_empty_r (s : string) : s +:+ "" = s.
Proof. induction s as [|a s IH]; [reflexivity|]. rewrite append_cons, IH. reflexivity. Qed.

Lemma append_assoc (s t u : string) : (s +:+ t) +:+ u = s +:+ (t +:+ u).
Proof.
  induction s as [|a s IH]; [reflexivity|]. rewrite !append_cons, IH. reflexivity.
Qed.

Lemma commaFree_append (s t : string) :
  commaFree (s +:+ t) = commaFree s && commaFree t.
Proof.
  induction s as [|a s IH]; [reflexivity|].
  rewrite append_cons. simpl. rewrite IH. apply andb_assoc.
Qed.

Lemma js_split_go_nonempty (c : ascii) (s cur : string) : js_split_go c s cur ≠ [].
Proof.
  revert cur. induction s as [|a s IH]; intros cur; simpl; [discriminate|].
  destruct (Ascii.eqb a c); [discriminate|apply IH].
Qed.

Lemma concat_js_split_go (c : ascii) (s cur : string) :
  String.concat (String c "") (js_split_go c s cur) = cur +:+ s.
Proof.
  revert cur. induction s as [|a s IH]; intros cur; simpl.
  - symmetry. apply append_empty_r.
  - destruct (Ascii.eqb_spec a c) as [->|_].
    + pose proof (js_split_go_nonempty c s "") as Hne. specialize (IH "").
      destruct (js_split_go c s "") as [|x xs]; [contradiction|].
      change (String.concat (String c "") (cur :: x :: xs))
        with (cur +:+ String c "" +:+ String.concat (String c "") (x :: xs)).
      rewrite IH. reflexivity.
    + rewrite IH, append_assoc. reflexivity.
Qed.

(** Pieces without a comma in front of the rest are passed over whole. *)
Lemma js_split_go_commaFree (a rest cur : string) :
  commaFree a = true →
  js_split_go "," (a +:+ rest) cur = js_split_go "," rest (cur +:+ a).
Proof.
  revert cur. induction a as [|x a IH]; intros cur Hfree.
  - rewrite append_empty_r. reflexivity.
  - simpl in Hfree. apply andb_prop in Hfree as [Hx Ha].
    rewrite append_cons. simpl. apply negb_true_iff in Hx. rewrite Hx.
    rewrite (IH _ Ha), append_assoc. reflexivity.
Qed.

(** X1: joining the pieces of [s.split(c)] with [c] gives [s] back, for
    every string and every separator character. *)
Theorem split_then_join (c : ascii) (s : string) :
  String.concat (String c "") (js_split c s) = s.
Proof. apply (concat_js_split_go c s ""). Qed.

(** X2: when a reader in progress hands over the data URL of a payload, and
    neither the MIME type of the file nor the payload has a comma, then
    [split(',')[1]] is the payload: it is what the audio file stores as
    [base64] and what goes out in the analysis request, with the MIME
    type of the file. A result without any comma gives no payload at all. *)
Theorem reader_extracts_payload (w : World) (i : nat) (file : File) (payload : string)
    (Hreader : readers w !! i = Some file)
    (Htype : commaFree (file_type file) = true)
    (Hpayload : commaFree payload = true) :
  let w' := readerOnload i (dataUrl (file_type file) payload) w in
  js_split "," (dataUrl (file_type file) payload) !! 1 = Some payload
  ∧ (base64 <$> audioFile (state w')) = Some (Some payload)
  ∧ analysisCalls w' = analysisCalls w ++ [(Some payload, file_type file)]
  ∧ analyses w' = analyses w ++ [(Some payload, file_type file)]
  ∧ (∀ s, commaFree s = true → js_split "," s !! 1 = None).
Proof.
  assert (∃ front, js_split "," (dataUrl (file_type file) payload) = [front; payload])
    as [front Hsplit].
  { unfold js_split, dataUrl.
    set (written := if truthy (file_type file) then file_type file
                    else "application/octet-stream").
    assert (commaFree written = true) as Hwritten.
    { subst written. destruct (truthy (file_type file)); [exact Htype|reflexivity]. }
    exists ("data:" +:+ written +:+ ";base64").
    replace ("data:" +:+ written +:+ ";base64," +:+ payload)
      with (("data:" +:+ written +:+ ";base64") +:+ ("," +:+ payload)).
    2:{ rewrite !append_assoc. reflexivity. }
    rewrite js_split_go_commaFree.
    2:{ rewrite !commaFree_append, Hwritten. reflexivity. }
    change ("," +:+ payload) with (String "," payload). simpl.
    f_equal. rewrite <- (append_empty_r payload) at 1.
    rewrite (js_split_go_commaFree payload "" "" Hpayload). reflexivity. }
  intros w'. subst w'. unfold readerOnload. rewrite Hreader, Hsplit. simpl.
  repeat split.
  intros s Hs. unfold js_split. rewrite <- (append_empty_r s).
  rewrite (js_split_go_commaFree s "" "" Hs). reflexivity.
Qed.

Lemma reader_extracts_payload_witness :
  let w := userAction (ChooseFiles [clip]) keyedWorld in
  readers w !! 0 = Some clip
  ∧ (base64 <$> audioFile (state (readerOnload 0 (dataUrl "audio/mpeg" "SUQzBAA=") w)))
    = Some (Some "SUQzBAA=").
Proof.
  intros w.
  assert (readers w !! 0 = Some clip) as Hr by reflexivity.
  split; [exact Hr|].
  apply (reader_extracts_payload w 0 clip "SUQzBAA=" Hr); reflexivity.
Defined.

(** ** The step indicator *)

(** X3: for every status the index of the current step is one of 0..4, so
    [findIndex] never answers -1 here; [ERROR] is shown as the first step,
    like [IDLE]; and apart from that two statuses never share a step. *)
Theorem status_index_in_range (s : AppStatus) :
  (0 <= getStatusIndex s <= 4)%Z
  ∧ getStatusIndex ERROR = getStatusIndex IDLE
  ∧ (∀ s', s ≠ ERROR → s' ≠ ERROR → getStatusIndex s = getStatusIndex s' → s = s')
  ∧ (s ≠ ERROR → fst <$> steps !! Z.to_nat (getStatusIndex s) = Some s).
Proof.
  split; [destruct s; vm_compute; split; discriminate|].
  split; [reflexivity|]. split.
  - intros s' Hs Hs'. destruct s, s'; try reflexivity; try contradiction;
      vm_compute; discriminate.
  - intros Hs. destruct s; try reflexivity. contradiction.
Qed.

(** X4: the indicator draws five circles numbered 1 to 5 with the labels of
    [steps]; the active ones are exactly the first [index + 1], exactly one
    circle is the current one and it sits at position [index]; the bar is
    [25 * index] percent wide. *)
Theorem step_views_shape (s : AppStatus) :
  let index := Z.to_nat (getStatusIndex s) in
  (label <$> stepViews s) = (snd <$> steps)
  ∧ (number <$> stepViews s) = [1; 2; 3; 4; 5]%Z
  ∧ (isActive <$> stepViews s) = replicate (S index) true ++ replicate (4 - index) false
  ∧ (isCurrent <$> stepViews s) = <[index := true]> (replicate 5 false)
  ∧ (progressWidth s == inject_Z (25 * getStatusIndex s))%Q.
Proof. destruct s; repeat split; reflexivity. Qed.

(** ** What is on the screen *)

(** A control is mounted exactly when its card is shown, and at most one
    card is shown. *)
Lemma mounted_iff_panel (s : ReactState) (c : Control) :
  mounted s c = bool_decide (panelOf c ∈ panels s).
Proof.
  destruct s as [st au p v e k].
  destruct k, st, au as [a|], (truthy_opt v) eqn:Ev, c;
    unfold mounted, panels; simpl; rewrite ?Ev; reflexivity.
Qed.

Lemma at_most_one_panel (s : ReactState) : length (panels s) ≤ 1.
Proof.
  destruct s as [st au p v e k].
  destruct k, st, au as [a|], (truthy_opt v) eqn:Ev;
    unfold panels; simpl; rewrite ?Ev; simpl; lia.
Qed.

(** X5: when no card is shown, a key is selected and the status is [ERROR],
    or [REVIEW] without an audio file, or [COMPLETED] without a video URL
    or without an audio file; then no control is mounted and no user
    action changes anything. *)
Theorem blank_card_is_dead_end (w : World) (Hblank : panels (state w) = []) :
  keySelected (state w) = true
  ∧ (status (state w) = ERROR
     ∨ (status (state w) = REVIEW ∧ audioFile (state w) = None)
     ∨ (status (state w) = COMPLETED
        ∧ (truthy_opt (videoUrl (state w)) = false ∨ audioFile (state w) = None)))
  ∧ (∀ c, mounted (state w) c = false)
  ∧ (∀ a, userAction a w = w).
Proof.
  assert (∀ c, mounted (state w) c = false) as Hnone.
  { intros c. rewrite mounted_iff_panel, Hblank. reflexivity. }
  split; [|split; [|split; [exact Hnone|]]].
  - specialize (Hnone SelectKeyButton). simpl in Hnone.
    destruct (keySelected (state w)); [reflexivity|discriminate].
  - destruct (state w) as [st au p v e k]. unfold panels in Hblank. simpl in *.
    destruct k; [|discriminate]. simpl in Hblank.
    destruct st; simpl in Hblank; try discriminate.
    + right. left. destruct au; [discriminate|auto].
    + right. right. split; [reflexivity|].
      destruct (truthy_opt v); [|auto]. destruct au; [discriminate|auto].
    + left. reflexivity.
  - intros a. rewrite !userAction_eq. rewrite Hnone. reflexivity.
Qed.

Lemma blank_card_is_dead_end_witness :
  panels (state blankWorld) = []
  ∧ status (state blankWorld) = COMPLETED
  ∧ userAction ClickCreateAnother blankWorld = blankWorld.
Proof.
  assert (panels (state blankWorld) = []) as Hblank by reflexivity.
  split; [exact Hblank|]. split; [reflexivity|].
  apply (blank_card_is_dead_end blankWorld Hblank).
Defined.

(** X6: a key selection that fails while no key is selected sets the error
    but shows nothing, since the banner belongs to the branch with a key;
    the message comes up once a later selection succeeds. A failed key
    check on mount changes nothing. *)
Theorem key_failure_banner_is_deferred (w : World) (m : string)
    (Hnokey : keySelected (state w) = false) :
  let w1 := handleSelectKey (Some (Rejected m)) w in
  let w2 := handleSelectKey (Some (Resolved ())) w1 in
  panels (state w1) = [KeyGate]
  ∧ errorBanner (state w1) = None
  ∧ errorBanner (state w2) = Some "Failed to select API key. Please try again."
  ∧ checkApiKey (Some (Rejected m)) w = w.
Proof.
  intros w1 w2. subst w1 w2. unfold handleSelectKey, errorBanner, panels. simpl.
  rewrite Hnokey. repeat split.
Qed.

Lemma key_failure_banner_is_deferred_witness :
  keySelected (state initialWorld) = false
  ∧ errorBanner (state (handleSelectKey (Some (Rejected "closed")) initialWorld)) = None
  ∧ errorBanner (state (handleSelectKey (Some (Resolved ()))
                          (handleSelectKey (Some (Rejected "closed")) initialWorld)))
    = Some "Failed to select API key. Please try again.".
Proof.
  assert (keySelected (state initialWorld) = false) as Hk by reflexivity.
  destruct (key_failure_banner_is_deferred initialWorld "closed" Hk) as (_ & H1 & H2 & _).
  split; [exact Hk|]. split; [exact H1|exact H2].
Defined.

(** ** generateVeoVideo *)

Lemma blobUrl_is_blob (n : nat) : String.prefix "blob:" (blobUrl n) = true.
Proof. unfold blobUrl. destruct (NilZero.string_of_uint (Nat.to_uint n)); reflexivity. Qed.

Lemma pollLoop_waited svc operation0 fuel e :
  pollLoop fuel svc operation0 0 0 = Some e →
  waitedMs e = (10000 * Z.of_nat (polls e))%Z.
Proof.
  intros He. destruct (pollLoop_ended _ _ _ _ He)
    as (n & _ & [(_ & o & _ & ->)|(_ & m & _ & ->)]); reflexivity.
Qed.

(** The shape of every settlement of [generateVeoVideo]. *)
Lemma generateVeoVideo_settles (fuel : nat) (svc : VeoService) (prompt : string)
    (u : URLStore) (run : VeoRun)
    (Hrun : generateVeoVideo fuel svc prompt u = Some run) :
  waited run = (10000 * Z.of_nat (pollsMade run))%Z
  ∧ match settled run with
    | Rejected m =>
        urlsAfter run = u
        ∧ match getClient svc with
          | Rejected thrown => m = thrown ∧ pollsMade run = 0
          | Resolved _ => m = generationFailedMessage
          end
    | Resolved x =>
        getClient svc = Resolved ()
        ∧ x = blobUrl (minted u)
        ∧ String.prefix "blob:" x = true
        ∧ x ∈ live (urlsAfter run)
        ∧ urlsAfter run = mkURLStore ({[x]} ∪ live u) (S (minted u))
    end.
Proof.
  unfold generateVeoVideo, veoTry in Hrun.
  destruct (getClient svc) as [[]|thrown].
  2:{ injection Hrun as <-. simpl. auto. }
  destruct (models_generateVideos svc prompt) as [operation0|m0].
  2:{ injection Hrun as <-. simpl. auto. }
  destruct (pollLoop fuel svc operation0 0 0) as [e|] eqn:Hloop; [|discriminate].
  pose proof (pollLoop_waited _ _ _ _ Hloop) as Hwait.
  destruct e as [[operation|m] k t]; simpl in Hwait.
  2:{ injection Hrun as <-. simpl. auto. }
  destruct (negb (truthy_opt (videoUriOf operation))).
  { injection Hrun as <-. simpl. auto. }
  destruct (fetch svc _) as [resp|m].
  2:{ injection Hrun as <-. simpl. auto. }
  destruct (negb (ok resp)).
  { injection Hrun as <-. simpl. auto. }
  destruct (blob resp) as [b|m].
  2:{ injection Hrun as <-. simpl. auto. }
  simpl in Hrun. injection Hrun as <-. simpl.
  split; [exact Hwait|]. split; [reflexivity|]. split; [reflexivity|].
  split; [apply blobUrl_is_blob|].
  split; [|reflexivity]. apply elem_of_union_l, elem_of_singleton. reflexivity.
Qed.

(** X7: however [generateVeoVideo] settles, it has waited 10 s per poll. A
    rejection leaves the object URLs as they were; when [getClient()]
    throws, which happens before the [try], the rejection carries what was
    thrown and no poll was made; in every other case it carries the one
    message of the [catch] block. A resolution needs the client, and
    yields a newly made object URL, which is a blob URL and is live
    afterwards. *)
Theorem veo_settlement_shape (fuel : nat) (svc : VeoService) (prompt : string)
    (u : URLStore) (run : VeoRun)
    (Hrun : generateVeoVideo fuel svc prompt u = Some run) :
  waited run = (10000 * Z.of_nat (pollsMade run))%Z
  ∧ match settled run with
    | Rejected m =>
        urlsAfter run = u
        ∧ match getClient svc with
          | Rejected thrown => m = thrown ∧ pollsMade run = 0
          | Resolved _ => m = generationFailedMessage
          end
    | Resolved x =>
        getClient svc = Resolved ()
        ∧ x = blobUrl (minted u)
        ∧ String.prefix "blob:" x = true
        ∧ x ∈ live (urlsAfter run)
        ∧ urlsAfter run = mkURLStore ({[x]} ∪ live u) (S (minted u))
    end.
Proof. exact (generateVeoVideo_settles fuel svc prompt u run Hrun). Qed.

Lemma veo_settlement_shape_witness :
  generateVeoVideo 5 (serviceWith oneVideo) "a calm sea at dawn" (mkURLStore ∅ 0)
  = Some (mkVeoRun (Resolved "blob:0") 0 0 (mkURLStore ({["blob:0"]} ∪ ∅) 1))
  ∧ "blob:0" ∈ live (mkURLStore ({["blob:0"]} ∪ ∅) 1)
  ∧ generateVeoVideo 5 (clientFails "An API Key must be set") "a calm sea at dawn"
                     (mkURLStore ∅ 0)
    = Some (mkVeoRun (Rejected "An API Key must be set") 0 0 (mkURLStore ∅ 0))
  ∧ generateVeoVideo 5 submissionFails "a calm sea at dawn" (mkURLStore ∅ 0)
    = Some (mkVeoRun (Rejected generationFailedMessage) 0 0 (mkURLStore ∅ 0)).
Proof.
  assert (generateVeoVideo 5 (serviceWith oneVideo) "a calm sea at dawn" (mkURLStore ∅ 0)
          = Some (mkVeoRun (Resolved "blob:0") 0 0 (mkURLStore ({["blob:0"]} ∪ ∅) 1)))
    as Hrun by reflexivity.
  split; [exact Hrun|]. split; [|split; reflexivity].
  pose proof (veo_settlement_shape _ _ _ _ _ Hrun) as H. simpl in H.
  destruct H as (_ & _ & _ & _ & Hin & _). exact Hin.
Defined.

(** X8: [generateVeoVideo] resolves exactly when the submission resolves
    (the client is made and its [generateVideos] resolves), the polling
    ends with an operation, the first generated video of that operation
    has a non-empty URI, the fetch of that URI with [&key=] and the API
    key appended resolves with an ok response, and the body of the
    response can be read. *)
Theorem veo_resolves_exactly_when (fuel : nat) (svc : VeoService) (prompt : string)
    (u : URLStore) :
  (∃ run x, generateVeoVideo fuel svc prompt u = Some run ∧ settled run = Resolved x)
  ↔ ∃ operation0 operation k t g v videoUri resp b,
      generateVideos svc prompt = Resolved operation0
      ∧ pollLoop fuel svc operation0 0 0 = Some (mkPollEnd (Resolved operation) k t)
      ∧ (response operation ≫= generatedVideos) ≫= head = Some g
      ∧ video g = Some v ∧ uri v = Some videoUri ∧ videoUri ≠ ""
      ∧ fetch svc (videoUri +:+ "&key=" +:+ templateText (API_KEY svc)) = Resolved resp
      ∧ ok resp = true
      ∧ blob resp = Resolved b.
Proof.
  unfold generateVeoVideo, veoTry. split.
  - intros (run & x & Hrun & Hx).
    destruct (getClient svc) as [[]|thrown] eqn:Hclient;
      [|injection Hrun as <-; discriminate].
    destruct (models_generateVideos svc prompt) as [operation0|m0] eqn:Hsub;
      [|injection Hrun as <-; discriminate].
    destruct (pollLoop fuel svc operation0 0 0) as [[[operation|m] k t]|] eqn:Hloop;
      [|injection Hrun as <-; discriminate|discriminate].
    destruct (videoUriOf operation) as [videoUri|] eqn:Huri;
      [|injection Hrun as <-; discriminate].
    simpl in Hrun. destruct (truthy videoUri) eqn:Ht;
      [|injection Hrun as <-; discriminate].
    simpl in Hrun.
    destruct (fetch svc _) as [resp|m] eqn:Hfetch;
      [|injection Hrun as <-; discriminate].
    destruct (ok resp) eqn:Hok; [|injection Hrun as <-; discriminate].
    simpl in Hrun.
    destruct (blob resp) as [b|m] eqn:Hb; [|injection Hrun as <-; discriminate].
    unfold videoUriOf in Huri.
    destruct (response operation) as [r|] eqn:Hr; [|discriminate]. simpl in Huri.
    destruct (generatedVideos r) as [vs|] eqn:Hvs; [|discriminate]. simpl in Huri.
    destruct vs as [|g rest]; [discriminate|]. simpl in Huri.
    destruct (video g) as [v|] eqn:Hv; [|discriminate]. simpl in Huri.
    exists operation0, operation, k, t, g, v, videoUri, resp, b.
    unfold generateVideos. rewrite Hclient, Hr. simpl. rewrite Hvs. simpl.
    repeat split; try assumption.
    apply truthy_true, Ht.
  - intros (operation0 & operation & k & t & g & v & videoUri & resp & b
            & Hs & Hp & Hg & Hv & Hu & Hne & Hf & Hok & Hb).
    destruct (generateVideos_resolved _ _ _ Hs) as [Hclient Hsub].
    assert (videoUriOf operation = Some videoUri) as Huri.
    { unfold videoUriOf. destruct (response operation) as [r|]; [|discriminate].
      simpl in *. destruct (generatedVideos r) as [vs|]; [|discriminate].
      simpl in *. destruct vs as [|g' rest]; [discriminate|]. simpl in *.
      injection Hg as ->. rewrite Hv. simpl. exact Hu. }
    rewrite Hclient, Hsub, Hp, Huri. simpl. apply truthy_true in Hne. rewrite Hne. simpl.
    rewrite Hf, Hok. simpl. rewrite Hb. simpl. eexists _, _. split; reflexivity.
Qed.

Lemma veo_resolves_exactly_when_witness :
  (∃ run x, generateVeoVideo 5 (serviceWith oneVideo) "a calm sea at dawn" (mkURLStore ∅ 0)
            = Some run ∧ settled run = Resolved x)
  ∧ fetch (serviceWith oneVideo) "https://veo.example/v1?alt=media&key=k"
    = Resolved (mkFetchResponse true "OK" (Resolved "mp4")).
Proof.
  split; [|reflexivity].
  apply (veo_resolves_exactly_when 5 (serviceWith oneVideo) "a calm sea at dawn"
           (mkURLStore ∅ 0)).
  eexists _, _, _, _, _, _, _, _, _.
  repeat split; try reflexivity. discriminate.
Defined.

(** ** Settlement of a job in the component *)

Lemma commit_keeps_live (s' : ReactState) (w : World) (x : string) :
  x ∈ live (urls w) → videoUrl (state w) ≠ Some x ∨ videoUrl s' = videoUrl (state w) →
  x ∈ live (urls (commit s' w)).
Proof.
  intros Hin Hor. unfold commit. simpl.
  destruct (decide (videoUrl (state w) = videoUrl s')) as [E|NE]; [exact Hin|].
  destruct Hor as [Hne|Heq]; [|congruence].
  unfold videoUrlCleanup. destruct (videoUrl (state w)) as [v|]; [|exact Hin].
  destruct (truthy v && String.prefix "blob:" v); [|exact Hin].
  simpl. apply elem_of_difference. split; [exact Hin|].
  rewrite elem_of_singleton. congruence.
Qed.

(** X9: when an outstanding job resolves, the status is [Completed] and the
    video URL is the newly made blob URL, which is live; prompt, audio file
    and error are as they were, the job is no longer outstanding, and a
    different blob URL held as video URL before is revoked. *)
Theorem job_success_completes (w : World) (i fuel : nat) (svc : VeoService)
    (prompt x : string) (run : VeoRun)
    (Hjob : jobs w !! i = Some prompt)
    (Hrun : generateVeoVideo fuel svc prompt (urls w) = Some run)
    (Hres : settled run = Resolved x) :
  let w' := jobSettled i fuel svc w in
  status (state w') = COMPLETED
  ∧ videoUrl (state w') = Some x
  ∧ x = blobUrl (minted (urls w))
  ∧ x ∈ live (urls w')
  ∧ generatedPrompt (state w') = generatedPrompt (state w)
  ∧ audioFile (state w') = audioFile (state w)
  ∧ error (state w') = error (state w)
  ∧ jobs w' = delete i (jobs w)
  ∧ (∀ v, videoUrl (state w) = Some v → v ≠ x → String.prefix "blob:" v = true →
          v ∉ live (urls w')).
Proof.
  intros w'. subst w'.
  pose proof (generateVeoVideo_settles _ _ _ _ _ Hrun) as [_ Hshape].
  rewrite Hres in Hshape. destruct Hshape as (_ & Hx & _ & Hin & Hafter).
  unfold jobSettled. rewrite Hjob, Hrun, Hres. unfold generateSettled. simpl.
  rewrite Hjob. simpl.
  split; [reflexivity|]. split; [reflexivity|]. split; [exact Hx|].
  split; [|split; [reflexivity|split; [reflexivity|split; [reflexivity|split;
    [reflexivity|]]]]].
  - destruct (decide (videoUrl (state w) = Some x)) as [E|NE]; [exact Hin|].
    unfold videoUrlCleanup. destruct (videoUrl (state w)) as [v|]; [|exact Hin].
    destruct (truthy v && String.prefix "blob:" v); [|exact Hin].
    simpl. apply elem_of_difference. split; [exact Hin|].
    rewrite elem_of_singleton. congruence.
  - intros v Hv Hne Hblob. rewrite Hv.
    destruct (decide (Some v = Some x)) as [E|_]; [congruence|].
    simpl. assert (truthy v = true) as ->.
    { apply truthy_true. intros E. rewrite E in Hblob. discriminate Hblob. }
    rewrite Hblob. simpl. intros Hin'. apply elem_of_difference in Hin'.
    destruct Hin' as [_ Hin']. apply Hin', elem_of_singleton. reflexivity.
Qed.

Lemma job_success_completes_witness :
  status (state (jobSettled 0 5 (serviceWith oneVideo) generatingWorld)) = COMPLETED
  ∧ videoUrl (state (jobSettled 0 5 (serviceWith oneVideo) generatingWorld)) = Some "blob:1"
  ∧ "blob:1" ∈ live (urls (jobSettled 0 5 (serviceWith oneVideo) generatingWorld)).
Proof.
  destruct (job_success_completes generatingWorld 0 5 (serviceWith oneVideo)
              "a neon cityscape at night" "blob:1"
              (mkVeoRun (Resolved "blob:1") 0 0
                 (mkURLStore ({["blob:1"]} ∪ live (urls generatingWorld)) 2))
              eq_refl eq_refl eq_refl)
    as (H1 & H2 & _ & H4 & _).
  split; [exact H1|]. split; [exact H2|exact H4].
Defined.

(** X10: when an outstanding job rejects, the status is [Review] and the
    error is [e.message || "Failed to generate video."]: with a client it
    is the message of the [catch] block of [generateVeoVideo], and never
    the fallback text; when [getClient()] threw it is what was thrown, or
    the fallback text if that is empty. It is never empty. Prompt, audio
    file, video URL and object URLs are untouched. With a key, an audio
    file and a non-empty prompt the generate button is mounted again, and
    a click submits the current prompt once more. *)
Theorem job_failure_allows_retry (w : World) (i fuel : nat) (svc : VeoService)
    (prompt m : string) (run : VeoRun)
    (Hjob : jobs w !! i = Some prompt)
    (Hrun : generateVeoVideo fuel svc prompt (urls w) = Some run)
    (Hrej : settled run = Rejected m) :
  let w' := jobSettled i fuel svc w in
  status (state w') = REVIEW
  ∧ error (state w')
    = Some (match getClient svc with
            | Resolved _ => generationFailedMessage
            | Rejected thrown => js_or (Some thrown) generateFallbackMessage
            end)
  ∧ (getClient svc = Resolved () →
     error (state w') = Some generationFailedMessage
     ∧ error (state w') ≠ Some generateFallbackMessage)
  ∧ error (state w') ≠ Some ""
  ∧ generatedPrompt (state w') = generatedPrompt (state w)
  ∧ audioFile (state w') = audioFile (state w)
  ∧ videoUrl (state w') = videoUrl (state w)
  ∧ urls w' = urls w
  ∧ jobs w' = delete i (jobs w)
  ∧ (keySelected (state w) = true → audioFile (state w) ≠ None →
     generatedPrompt (state w) ≠ "" →
     mounted (state w') GenerateButton = true
     ∧ submittedJobs (userAction ClickGenerate w')
       = submittedJobs w ++ [generatedPrompt (state w)]).
Proof.
  intros w'.
  pose proof (generateVeoVideo_settles _ _ _ _ _ Hrun) as [_ Hshape].
  rewrite Hrej in Hshape. destruct Hshape as [Hafter Hm].
  set (shown := match getClient svc with
                | Resolved _ => generationFailedMessage
                | Rejected thrown => js_or (Some thrown) generateFallbackMessage
                end).
  assert (js_or (Some m) generateFallbackMessage = shown) as Hshown.
  { subst shown. destruct (getClient svc) as [[]|thrown].
    - rewrite Hm. reflexivity.
    - destruct Hm as [-> _]. reflexivity. }
  assert (w' = commit (setStatus REVIEW (setError (Some shown) (state w)))
                      (mkWorld (state w) (urls w) (readers w) (analyses w)
                               (delete i (jobs w)) (analysisCalls w) (submittedJobs w)))
    as Hw'.
  { subst w'. unfold jobSettled. rewrite Hjob, Hrun, Hrej, Hafter.
    unfold generateSettled. cbn [jobs]. rewrite Hjob, Hshown. reflexivity. }
  assert (urls w' = urls w) as Hurls.
  { rewrite Hw'. apply (commit_same_videoUrl _ (mkWorld _ _ _ _ _ _ _)). reflexivity. }
  assert (error (state w') = Some shown) as Herr by (rewrite Hw'; reflexivity).
  split; [rewrite Hw'; reflexivity|]. split; [exact Herr|]. split; [|split].
  { intros Hclient. rewrite Herr. subst shown. rewrite Hclient.
    split; [reflexivity|discriminate]. }
  { rewrite Herr, <- Hshown. intros E.
    assert (js_or (Some m) generateFallbackMessage = "") as E' by congruence.
    revert E'. apply js_or_not_empty. discriminate. }
  split; [rewrite Hw'; reflexivity|]. split; [rewrite Hw'; reflexivity|].
  split; [rewrite Hw'; reflexivity|].
  split; [exact Hurls|]. split; [rewrite Hw'; reflexivity|].
  intros Hk Ha Hp.
  assert (mounted (state w') GenerateButton = true) as Hmt.
  { rewrite Hw'. simpl. rewrite Hk. destruct (audioFile (state w)); [reflexivity|contradiction]. }
  split; [exact Hmt|]. rewrite userAction_eq. cbn [controlOf handlerOf]. rewrite Hmt.
  assert (generatedPrompt (state w') ≠ "") as Hp' by (rewrite Hw'; exact Hp).
  destruct (handleGenerateVideo_submits w' Hp') as (_ & _ & _ & ->).
  rewrite Hw'. reflexivity.
Qed.

Lemma job_failure_allows_retry_witness :
  let w' := jobSettled 0 5 submissionFails generatingWorld in
  let w'' := jobSettled 0 5 (clientFails "An API Key must be set") generatingWorld in
  error (state w') = Some generationFailedMessage
  ∧ submittedJobs (userAction ClickGenerate w')
    = ["a neon cityscape at night"; "a neon cityscape at night"]
  ∧ error (state w'') = Some "An API Key must be set"
  ∧ error (state (jobSettled 0 5 (clientFails "") generatingWorld))
    = Some generateFallbackMessage.
Proof.
  destruct (job_failure_allows_retry generatingWorld 0 5 submissionFails
              "a neon cityscape at night" generationFailedMessage
              (mkVeoRun (Rejected generationFailedMessage) 0 0 (urls generatingWorld))
              eq_refl eq_refl eq_refl)
    as (_ & H2 & _ & _ & _ & _ & _ & _ & _ & H10).
  destruct (job_failure_allows_retry generatingWorld 0 5
              (clientFails "An API Key must be set")
              "a neon cityscape at night" "An API Key must be set"
              (mkVeoRun (Rejected "An API Key must be set") 0 0 (urls generatingWorld))
              eq_refl eq_refl eq_refl)
    as (_ & H2' & _).
  destruct (job_failure_allows_retry generatingWorld 0 5 (clientFails "")
              "a neon cityscape at night" ""
              (mkVeoRun (Rejected "") 0 0 (urls generatingWorld))
              eq_refl eq_refl eq_refl)
    as (_ & H2'' & _).
  split; [exact H2|]. split; [apply H10; [reflexivity|discriminate|discriminate]|].
  split; [exact H2'|exact H2''].
Defined.

(** ** Editing the prompt *)

(** X11: a prompt edit never changes the status; through a textarea that is
    not mounted it changes nothing at all; through a mounted one it changes
    the prompt and nothing else, and a click on generate right after
    submits the edited text, or does nothing when the text is empty. *)
Theorem edited_prompt_is_submitted (w : World) (v : string) :
  status (state (userAction (EditPrompt v) w)) = status (state w)
  ∧ (mounted (state w) PromptTextarea = false → userAction (EditPrompt v) w = w)
  ∧ (mounted (state w) PromptTextarea = true →
     let w1 := userAction (EditPrompt v) w in
     w1 = mkWorld (setGeneratedPrompt v (state w)) (urls w) (readers w) (analyses w)
                  (jobs w) (analysisCalls w) (submittedJobs w)
     ∧ (v ≠ "" →
        status (state (userAction ClickGenerate w1)) = GENERATING
        ∧ submittedJobs (userAction ClickGenerate w1) = submittedJobs w ++ [v])
     ∧ (v = "" → userAction ClickGenerate w1 = w1)).
Proof.
  assert (handlePromptChange v w
          = mkWorld (setGeneratedPrompt v (state w)) (urls w) (readers w)
                    (analyses w) (jobs w) (analysisCalls w) (submittedJobs w)) as Hedit.
  { unfold handlePromptChange, commit. simpl.
    destruct (decide (videoUrl (state w) = videoUrl (state w))); [reflexivity|contradiction]. }
  assert (userAction (EditPrompt v) w
          = if mounted (state w) PromptTextarea then handlePromptChange v w else w) as Hact
    by reflexivity.
  rewrite Hact. destruct (mounted (state w) PromptTextarea) eqn:Hm.
  - rewrite Hedit. split; [reflexivity|]. split; [intros H; discriminate H|].
    intros _. set (w1 := mkWorld _ _ _ _ _ _ _). simpl.
    split; [reflexivity|]. split.
    + intros Hv. rewrite !userAction_eq. cbn [controlOf handlerOf].
      assert (mounted (state w1) GenerateButton = true) as -> by exact Hm.
      assert (generatedPrompt (state w1) ≠ "") as Hp by exact Hv.
      destruct (handleGenerateVideo_submits w1 Hp) as (-> & _ & _ & ->).
      split; reflexivity.
    + intros ->. rewrite !userAction_eq. cbn [controlOf handlerOf].
      destruct (mounted (state w1) GenerateButton); reflexivity.
  - split; [reflexivity|]. split; [reflexivity|intros H; discriminate H].
Qed.

Lemma edited_prompt_is_submitted_witness :
  mounted (state reviewWorld) PromptTextarea = true
  ∧ submittedJobs (userAction ClickGenerate
                     (userAction (EditPrompt "a calm sea at dawn") reviewWorld))
    = submittedJobs reviewWorld ++ ["a calm sea at dawn"].
Proof.
  assert (mounted (state reviewWorld) PromptTextarea = true) as Hm by reflexivity.
  split; [exact Hm|].
  destruct (edited_prompt_is_submitted reviewWorld "a calm sea at dawn") as (_ & _ & H).
  destruct (H Hm) as (_ & Hgen & _). apply Hgen. discriminate.
Defined.

(** ** Failure of the analysis *)

(** X12: when an outstanding analysis fails, whatever the reason, the
    status is [Idle] and the error is the fixed message of
    [performAnalysis]; the audio file stays stored and its object URL stays
    live, the prompt is untouched, and with a key the file input is
    mounted again. *)
Theorem analysis_failure_returns_to_idle (w : World) (i : nat) (m : string)
    (Hout : is_Some (analyses w !! i)) :
  let w' := analysisSettled i (Rejected m) w in
  status (state w') = IDLE
  ∧ error (state w') = Some analysisFailedMessage
  ∧ audioFile (state w') = audioFile (state w)
  ∧ generatedPrompt (state w') = generatedPrompt (state w)
  ∧ urls w' = urls w
  ∧ analyses w' = delete i (analyses w)
  ∧ analysisCalls w' = analysisCalls w
  ∧ (keySelected (state w) = true → mounted (state w') FileInput = true).
Proof.
  destruct Hout as [c Hc]. intros w'. subst w'. unfold analysisSettled, analysisSettledWith. rewrite Hc.
  simpl. repeat split.
  - destruct (decide (videoUrl (state w) = videoUrl (state w))); [reflexivity|contradiction].
  - intros ->. reflexivity.
Qed.

Lemma analysis_failure_returns_to_idle_witness :
  is_Some (analyses analyzingWorld !! 0)
  ∧ status (state (analysisSettled 0 (Rejected "quota") analyzingWorld)) = IDLE
  ∧ error (state (analysisSettled 0 (Rejected "quota") analyzingWorld))
    = Some analysisFailedMessage.
Proof.
  assert (is_Some (analyses analyzingWorld !! 0)) as Ho by (eexists; reflexivity).
  destruct (analysis_failure_returns_to_idle analyzingWorld 0 "quota" Ho)
    as (H1 & H2 & _).
  split; [exact Ho|]. split; [exact H1|exact H2].
Defined.

(** ** Runs *)

Lemma run_invariant (P : World → Prop) :
  (∀ e w, P w → P (step e w)) → ∀ es w, P w → P (run es w).
Proof.
  intros Hstep es. induction es as [|e es IH]; intros w Hw; [exact Hw|].
  simpl. apply IH, Hstep, Hw.
Qed.

Lemma run_app (es1 es2 : list Event) (w : World) :
  run (es1 ++ es2) w = run es2 (run es1 w).
Proof. apply fold_left_app. Qed.

Lemma blobIndex_blobUrl (n : nat) : blobIndex (blobUrl n) = Some n.
Proof.
  unfold blobUrl, blobIndex. change ("blob:" +:+ ?s) with
    (String "b" (String "l" (String "o" (String "b" (String ":" s))))).
  destruct (Nat.to_uint n) as [| | | | | | | | | |] eqn:E.
  1:{ simpl. f_equal. rewrite <- (Unsigned.of_to n), E. reflexivity. }
  all: rewrite NilZero.usu by discriminate; simpl; f_equal;
    rewrite <- E; apply Unsigned.of_to.
Qed.

Lemma blobUrl_inj (n k : nat) : blobUrl n = blobUrl k → n = k.
Proof.
  intros H. apply (f_equal blobIndex) in H. rewrite !blobIndex_blobUrl in H.
  congruence.
Qed.

Lemma blobUrl_truthy (n : nat) : truthy (blobUrl n) = true.
Proof. apply truthy_true. intros H. pose proof (blobUrl_is_blob n) as P. rewrite H in P. discriminate P. Qed.

(** The three ways a job settlement event can go: nothing happens (no
    such job, or still polling), the job resolved, the job rejected. *)
Lemma jobSettled_cases (i fuel : nat) (svc : VeoService) (w : World) :
  jobSettled i fuel svc w = w
  ∨ (is_Some (jobs w !! i)
     ∧ jobSettled i fuel svc w
       = commit (setStatus COMPLETED
                   (setVideoUrl (Some (blobUrl (minted (urls w)))) (state w)))
                (mkWorld (state w)
                         (mkURLStore ({[blobUrl (minted (urls w))]} ∪ live (urls w))
                                     (S (minted (urls w))))
                         (readers w) (analyses w) (delete i (jobs w))
                         (analysisCalls w) (submittedJobs w)))
  ∨ (is_Some (jobs w !! i)
     ∧ ∃ shown,
         jobSettled i fuel svc w
         = commit (setStatus REVIEW (setError (Some shown) (state w)))
                  (mkWorld (state w) (urls w) (readers w) (analyses w) (delete i (jobs w))
                           (analysisCalls w) (submittedJobs w))).
Proof.
  unfold jobSettled. destruct (jobs w !! i) as [prompt|] eqn:Hjob; [|left; reflexivity].
  destruct (generateVeoVideo fuel svc prompt (urls w)) as [run|] eqn:Hrun;
    [|left; reflexivity].
  pose proof (generateVeoVideo_settles _ _ _ _ _ Hrun) as [_ Hshape].
  unfold generateSettled. simpl. rewrite Hjob.
  destruct (settled run) as [x|m].
  - destruct Hshape as (_ & -> & _ & _ & ->). right. left. split; [eexists; reflexivity|].
    reflexivity.
  - destruct Hshape as (-> & _). right. right. split; [eexists; reflexivity|].
    eexists. reflexivity.
Qed.

(** X13: in every world the component can get to from its initial one, by
    whatever user actions and settlements in whatever order, the status is
    never [ERROR], and whenever it is [COMPLETED] there is a non-empty video
    URL. *)
Theorem never_error_status (es : list Event) :
  let w := run es initialWorld in
  status (state w) ≠ ERROR
  ∧ (status (state w) = COMPLETED → truthy_opt (videoUrl (state w)) = true).
Proof.
  apply (run_invariant (λ w, status (state w) ≠ ERROR
           ∧ (status (state w) = COMPLETED → truthy_opt (videoUrl (state w)) = true)));
    [|split; discriminate].
  intros e w [Herr Hdone]. destruct e as [r|r|a|i result|i reply|i fuel svc]; simpl.
  - destruct r as [[hasKey|m]|]; simpl; auto.
  - destruct r as [[[]|m]|]; simpl; auto.
  - rewrite !userAction_eq. destruct (mounted (state w) (controlOf a)); [|auto].
    destruct a as [files|v| | |]; simpl.
    + unfold handleFileChange. destruct files as [|file rest]; [auto|].
      destruct (file_size file >? maxFileSize)%Z; simpl; auto.
    + auto.
    + split; discriminate.
    + unfold handleGenerateVideo, handleGenerateVideoFrom.
      destruct (negb (truthy (generatedPrompt (state w)))); simpl; [auto|].
      split; discriminate.
    + split; discriminate.
  - unfold readerOnload. destruct (readers w !! i); simpl; [|auto]. split; discriminate.
  - unfold analysisSettled, analysisSettledWith. destruct (analyses w !! i); [|auto].
    destruct (analyzeAudioForPrompt (Resolved ()) reply); simpl; split; discriminate.
  - destruct (jobSettled_cases i fuel svc w) as [->|[[_ ->]|[_ [shown ->]]]]; simpl.
    + auto.
    + split; [discriminate|]. intros _. apply blobUrl_truthy.
    + split; discriminate.
Qed.

(** X14: in every such world no prompt that was submitted to the video
    service is empty, and every job still outstanding is among the
    submitted ones. *)
Theorem never_submits_empty_prompt (es : list Event) :
  let w := run es initialWorld in
  Forall (λ p, p ≠ "") (submittedJobs w) ∧ jobs w ⊆ submittedJobs w.
Proof.
  apply (run_invariant (λ w, Forall (λ p, p ≠ "") (submittedJobs w)
                             ∧ jobs w ⊆ submittedJobs w));
    [|split; [constructor|intros x Hx; exact Hx]].
  intros e w [Hall Hsub]. destruct e as [r|r|a|i result|i reply|i fuel svc]; simpl.
  - destruct r as [[hasKey|m]|]; simpl; auto.
  - destruct r as [[[]|m]|]; simpl; auto.
  - rewrite !userAction_eq. destruct (mounted (state w) (controlOf a)); [|auto].
    destruct a as [files|v| | |]; simpl; auto.
    + unfold handleFileChange. destruct files as [|file rest]; [auto|].
      destruct (file_size file >? maxFileSize)%Z; simpl; auto.
    + unfold handleGenerateVideo, handleGenerateVideoFrom.
      destruct (truthy (generatedPrompt (state w))) eqn:E; simpl; [|auto]. split.
      * apply Forall_app. split; [exact Hall|]. constructor; [|constructor].
        apply truthy_true, E.
      * intros x Hx. apply elem_of_app in Hx as [Hx|Hx]; apply elem_of_app; auto.
  - unfold readerOnload. destruct (readers w !! i); simpl; auto.
  - unfold analysisSettled, analysisSettledWith. destruct (analyses w !! i); [|auto].
    destruct (analyzeAudioForPrompt (Resolved ()) reply); simpl; auto.
  - assert (delete i (jobs w) ⊆ submittedJobs w) as Hdel.
    { intros x Hx. apply Hsub. exact (list_elem_of_delete_inv _ _ _ Hx). }
    destruct (jobSettled_cases i fuel svc w) as [->|[[_ ->]|[_ [shown ->]]]]; simpl; auto.
Qed.

(** ** Object URLs along a run *)

Lemma cleanup_none (u : URLStore) : videoUrlCleanup None u = u.
Proof. reflexivity. Qed.

Lemma cleanup_minted (p : option string) (u : URLStore) :
  minted (videoUrlCleanup p u) = minted u.
Proof.
  unfold videoUrlCleanup. destruct p as [v|]; [|reflexivity].
  destruct (truthy v && String.prefix "blob:" v); reflexivity.
Qed.

Lemma cleanup_subset (p : option string) (u : URLStore) (x : string) :
  x ∈ live (videoUrlCleanup p u) → x ∈ live u.
Proof.
  unfold videoUrlCleanup. destruct p as [v|]; [|auto].
  destruct (truthy v && String.prefix "blob:" v); [|auto].
  simpl. intros H. apply elem_of_difference in H. tauto.
Qed.

Lemma cleanup_keeps (p : option string) (u : URLStore) (x : string) :
  x ∈ live u → p ≠ Some x → x ∈ live (videoUrlCleanup p u).
Proof.
  intros Hin Hne. unfold videoUrlCleanup. destruct p as [v|]; [|exact Hin].
  destruct (truthy v && String.prefix "blob:" v); [|exact Hin].
  simpl. apply elem_of_difference. split; [exact Hin|].
  rewrite elem_of_singleton. congruence.
Qed.

Lemma urls_commit_same (s' : ReactState) (w : World) :
  videoUrl s' = videoUrl (state w) → urls (commit s' w) = urls w.
Proof. apply commit_same_videoUrl. Qed.

(** An event touches the object URLs in one of four ways: not at all; a
    reset, which runs the clean-up for the video URL and forgets both
    URLs; a reader's [onload], which makes the URL of the new audio file;
    a resolved job, which makes the new video URL and runs the clean-up
    for the previous one. *)
Lemma step_url_effect (e : Event) (w : World) :
  let w' := step e w in
  let fresh := blobUrl (minted (urls w)) in
  let grown := mkURLStore ({[fresh]} ∪ live (urls w)) (S (minted (urls w))) in
  (urls w' = urls w
   ∧ audioFile (state w') = audioFile (state w)
   ∧ videoUrl (state w') = videoUrl (state w))
  ∨ (urls w' = videoUrlCleanup (videoUrl (state w)) (urls w)
     ∧ audioFile (state w') = None
     ∧ videoUrl (state w') = None)
  ∨ (urls w' = grown
     ∧ (url <$> audioFile (state w')) = Some fresh
     ∧ videoUrl (state w') = videoUrl (state w))
  ∨ (urls w' = (if decide (videoUrl (state w) = Some fresh) then grown
                else videoUrlCleanup (videoUrl (state w)) grown)
     ∧ audioFile (state w') = audioFile (state w)
     ∧ videoUrl (state w') = Some fresh).
Proof.
  assert (∀ s', videoUrl s' = videoUrl (state w) → audioFile s' = audioFile (state w) →
            urls (commit s' w) = urls w
            ∧ audioFile (state (commit s' w)) = audioFile (state w)
            ∧ videoUrl (state (commit s' w)) = videoUrl (state w)) as Hsame.
  { intros s' Hv Ha. split; [apply urls_commit_same, Hv|]. split; assumption. }
  assert (urls (handleReset w) = videoUrlCleanup (videoUrl (state w)) (urls w)
          ∧ audioFile (state (handleReset w)) = None
          ∧ videoUrl (state (handleReset w)) = None) as Hreset.
  { split; [|split; reflexivity]. unfold handleReset, commit. simpl.
    destruct (decide (videoUrl (state w) = None)) as [->|_]; reflexivity. }
  intros w' fresh grown. subst w'.
  destruct e as [r|r|a|i result|i reply|i fuel svc]; simpl.
  - left. destruct r as [[hasKey|m]|]; simpl; [apply Hsame; reflexivity|auto|auto].
  - left. destruct r as [[[]|m]|]; simpl; [apply Hsame; reflexivity| |auto].
    apply Hsame; reflexivity.
  - rewrite !userAction_eq. destruct (mounted (state w) (controlOf a)); [|auto].
    destruct a as [files|v| | |]; simpl.
    + left. unfold handleFileChange. destruct files as [|file rest]; [auto|].
      destruct (file_size file >? maxFileSize)%Z; simpl; [|auto].
      apply Hsame; reflexivity.
    + left. apply Hsame; reflexivity.
    + right. left. exact Hreset.
    + left. unfold handleGenerateVideo, handleGenerateVideoFrom.
      destruct (negb (truthy (generatedPrompt (state w)))); [auto|].
      simpl. apply Hsame; reflexivity.
    + right. left. exact Hreset.
  - unfold readerOnload. destruct (readers w !! i) as [file|]; [|auto].
    right. right. left. simpl.
    destruct (decide (videoUrl (state w) = videoUrl (state w))); [|contradiction].
    auto.
  - left. unfold analysisSettled, analysisSettledWith. destruct (analyses w !! i); [|auto].
    destruct (analyzeAudioForPrompt (Resolved ()) reply); simpl;
      (destruct (decide (videoUrl (state w) = videoUrl (state w))); [|contradiction]);
      auto.
  - destruct (jobSettled_cases i fuel svc w) as [->|[[_ ->]|[_ [shown ->]]]].
    + auto.
    + right. right. right. unfold commit. simpl. auto.
    + left. unfold commit. simpl.
      destruct (decide (videoUrl (state w) = videoUrl (state w))); [|contradiction].
      auto.
Qed.

Lemma urlsSound_step (e : Event) (w : World) : urlsSound w → urlsSound (step e w).
Proof.
  intros (Hall & Haudio & Hvideo & Hdiff).
  assert (∀ x, x ∈ live (urls w) → x ≠ blobUrl (minted (urls w))) as Hfresh.
  { intros x Hx E. destruct (Hall x Hx) as (k & Hk & ->).
    apply blobUrl_inj in E. lia. }
  destruct (step_url_effect e w)
    as [(Hu & Ha & Hv)|[(Hu & Ha & Hv)|[(Hu & Ha & Hv)|(Hu & Ha & Hv)]]];
    unfold urlsSound; rewrite ?Hu, ?Hv.
  - rewrite Ha. auto.
  - rewrite Ha. split; [|split; [|split]]; try discriminate.
    intros x Hx. rewrite cleanup_minted. apply Hall, (cleanup_subset _ _ _ Hx).
  - simpl. split; [|split; [|split]].
    + intros x Hx. apply elem_of_union in Hx as [Hx|Hx].
      * apply elem_of_singleton in Hx. exists (minted (urls w)). split; [lia|exact Hx].
      * destruct (Hall x Hx) as (k & Hk & ->). exists k. split; [lia|reflexivity].
    + intros a Ea. rewrite Ea in Ha. injection Ha as ->.
      apply elem_of_union_l, elem_of_singleton. reflexivity.
    + intros v Ev. apply elem_of_union_r, Hvideo, Ev.
    + intros a Ea Ev. rewrite Ea in Ha. injection Ha as Ha. rewrite Ha in Ev.
      exact (Hfresh _ (Hvideo _ Ev) eq_refl).
  - rewrite Ha.
    assert (videoUrl (state w) ≠ Some (blobUrl (minted (urls w)))) as Hne.
    { intros Ev. exact (Hfresh _ (Hvideo _ Ev) eq_refl). }
    destruct (decide (videoUrl (state w) = Some (blobUrl (minted (urls w)))));
      [contradiction|].
    split; [|split; [|split]].
    + intros x Hx. rewrite cleanup_minted. apply cleanup_subset in Hx. simpl in *.
      apply elem_of_union in Hx as [Hx|Hx].
      * apply elem_of_singleton in Hx. exists (minted (urls w)). split; [lia|exact Hx].
      * destruct (Hall x Hx) as (k & Hk & ->). exists k. split; [lia|reflexivity].
    + intros a Ea. apply cleanup_keeps.
      * apply elem_of_union_r, Haudio, Ea.
      * apply Hdiff, Ea.
    + intros v [= <-]. apply cleanup_keeps; [|exact Hne].
      apply elem_of_union_l, elem_of_singleton. reflexivity.
    + intros a Ea [= E]. exact (Hfresh _ (Haudio _ Ea) (eq_sym E)).
Qed.

Lemma urlsSound_initial : urlsSound initialWorld.
Proof.
  split; [|split; [|split]]; [|discriminate|discriminate|discriminate].
  intros x Hx. exfalso. exact (not_elem_of_empty (C:=gset string) x Hx).
Qed.

(** X15: in every world the component can get to, the object URL of the
    stored audio file and the video URL are live (made and not revoked),
    they are blob URLs, and they are different URLs. *)
Theorem held_urls_are_live (es : list Event) :
  let w := run es initialWorld in
  (∀ a, audioFile (state w) = Some a →
        url a ∈ live (urls w) ∧ String.prefix "blob:" (url a) = true)
  ∧ (∀ v, videoUrl (state w) = Some v →
          v ∈ live (urls w) ∧ String.prefix "blob:" v = true)
  ∧ (∀ a v, audioFile (state w) = Some a → videoUrl (state w) = Some v → url a ≠ v).
Proof.
  intros w.
  assert (urlsSound w) as (Hall & Haudio & Hvideo & Hdiff).
  { apply (run_invariant urlsSound); [apply urlsSound_step|apply urlsSound_initial]. }
  assert (∀ x, x ∈ live (urls w) → String.prefix "blob:" x = true) as Hblob.
  { intros x Hx. destruct (Hall x Hx) as (k & _ & ->). apply blobUrl_is_blob. }
  split; [|split].
  - intros a Ea. split; [|apply Hblob]; apply Haudio, Ea.
  - intros v Ev. split; [|apply Hblob]; apply Hvideo, Ev.
  - intros a v Ea Ev E. apply (Hdiff a Ea). congruence.
Qed.

Lemma unrevoked_step (e : Event) (w : World) (x : string) :
  urlsSound w → x ∈ live (urls w) → videoUrl (state w) ≠ Some x →
  x ∈ live (urls (step e w)) ∧ videoUrl (state (step e w)) ≠ Some x.
Proof.
  intros (Hall & _) Hx Hne.
  assert (x ≠ blobUrl (minted (urls w))) as Hfresh.
  { intros E. destruct (Hall x Hx) as (k & Hk & ->). apply blobUrl_inj in E. lia. }
  destruct (step_url_effect e w)
    as [(Hu & _ & Hv)|[(Hu & _ & Hv)|[(Hu & _ & Hv)|(Hu & _ & Hv)]]];
    rewrite Hu, Hv.
  - auto.
  - split; [apply cleanup_keeps; assumption|discriminate].
  - split; [apply elem_of_union_r, Hx|exact Hne].
  - split; [|congruence].
    destruct (decide (videoUrl (state w) = Some (blobUrl (minted (urls w))))).
    + apply elem_of_union_r, Hx.
    + apply cleanup_keeps; [apply elem_of_union_r, Hx|exact Hne].
Qed.

(** X16: the object URL of an audio file, once stored, is live after every
    further run of events, whatever they are: resets, new files, results.
    Nothing ever revokes it. *)
Theorem audio_url_is_never_revoked (es1 es2 : list Event) (a : AudioFile)
    (Ha : audioFile (state (run es1 initialWorld)) = Some a) :
  url a ∈ live (urls (run es2 (run es1 initialWorld))).
Proof.
  assert (urlsSound (run es1 initialWorld)) as Hsound
    by (apply (run_invariant urlsSound); [apply urlsSound_step|apply urlsSound_initial]).
  pose proof Hsound as (_ & Haudio & _ & Hdiff).
  assert (urlsSound (run es2 (run es1 initialWorld))
          ∧ url a ∈ live (urls (run es2 (run es1 initialWorld)))
          ∧ videoUrl (state (run es2 (run es1 initialWorld))) ≠ Some (url a)) as H.
  { apply (run_invariant (λ w, urlsSound w ∧ url a ∈ live (urls w)
                               ∧ videoUrl (state w) ≠ Some (url a))).
    - intros e w (Hs & Hin & Hne). split; [apply urlsSound_step, Hs|].
      apply unrevoked_step; assumption.
    - split; [exact Hsound|]. split; [apply Haudio, Ha|apply Hdiff, Ha]. }
  apply H.
Qed.

Lemma audio_url_is_never_revoked_witness :
  let es1 := [KeyChosen (Some (Resolved ())); Acts (ChooseFiles [clip]);
              ReaderLoads 0 "data:audio/mpeg;base64,SUQz"] in
  let es2 := [AnalysisSettles 0 (Resolved (mkContent (Some "a neon cityscape at night")));
              Acts ClickGenerate; JobSettles 0 5 (serviceWith oneVideo);
              Acts ClickCreateAnother;
              Acts (ChooseFiles [mkFile "other.wav" "audio/wav" 2048]);
              ReaderLoads 0 "data:audio/wav;base64,UklG"] in
  audioFile (state (run es1 initialWorld))
  = Some (mkAudioFile "clip.mp3" "audio/mpeg" (Some "SUQz") "blob:0")
  ∧ (url <$> audioFile (state (run (es1 ++ es2) initialWorld))) = Some "blob:2"
  ∧ "blob:0" ∈ live (urls (run es2 (run es1 initialWorld))).
Proof.
  intros es1 es2.
  assert (audioFile (state (run es1 initialWorld))
          = Some (mkAudioFile "clip.mp3" "audio/mpeg" (Some "SUQz") "blob:0")) as Ha
    by reflexivity.
  split; [exact Ha|]. split; [reflexivity|].
  exact (audio_url_is_never_revoked es1 es2 _ Ha).
Defined.

(** ** The key gate *)

Lemma keyless_step (e : Event) (err : option string) :
  grantsKey e = false →
  ∃ err', step e (mkWorld (mkState IDLE None "" None err false) (mkURLStore ∅ 0)
                          [] [] [] [] [])
          = mkWorld (mkState IDLE None "" None err' false) (mkURLStore ∅ 0)
                    [] [] [] [] [].
Proof.
  intros Hno. destruct e as [r|r|a|i result|i reply|i fuel svc]; simpl.
  - destruct r as [[[|]|m]|]; [discriminate Hno| | |]; eexists; reflexivity.
  - destruct r as [[[]|m]|]; [discriminate Hno| |]; eexists; reflexivity.
  - destruct a; eexists; reflexivity.
  - destruct i; eexists; reflexivity.
  - destruct i; eexists; reflexivity.
  - destruct i; eexists; reflexivity.
Qed.

(** X17: as long as no key check answers yes and no key selection
    succeeds, whatever else happens, the component stays behind the key
    card in its initial status with nothing stored; no reader is started,
    no analysis or video request is sent, no object URL is made, and no
    error is shown. *)
Theorem nothing_starts_without_key (es : list Event)
    (Hno : forallb (λ e, negb (grantsKey e)) es = true) :
  let w := run es initialWorld in
  (∃ err, state w = mkState IDLE None "" None err false)
  ∧ panels (state w) = [KeyGate]
  ∧ errorBanner (state w) = None
  ∧ urls w = mkURLStore ∅ 0
  ∧ readers w = [] ∧ analyses w = [] ∧ jobs w = []
  ∧ analysisCalls w = [] ∧ submittedJobs w = [].
Proof.
  assert (∀ l err, forallb (λ e, negb (grantsKey e)) l = true →
            ∃ err', run l (mkWorld (mkState IDLE None "" None err false)
                                   (mkURLStore ∅ 0) [] [] [] [] [])
                    = mkWorld (mkState IDLE None "" None err' false) (mkURLStore ∅ 0)
                              [] [] [] [] []) as Hrun.
  { induction l as [|e l IH]; intros err Hl; [eexists; reflexivity|].
    simpl in Hl. apply andb_prop in Hl as [He Hl]. apply negb_true_iff in He.
    destruct (keyless_step e err He) as [err' Hstep].
    change (run (e :: l) ?w) with (run l (step e w)). rewrite Hstep. apply IH, Hl. }
  destruct (Hrun es None Hno) as [err Hw]. intros w.
  assert (w = mkWorld (mkState IDLE None "" None err false) (mkURLStore ∅ 0)
                      [] [] [] [] []) as -> by exact Hw.
  split; [exists err; reflexivity|]. repeat split.
Qed.

Lemma nothing_starts_without_key_witness :
  let es := [KeyChecked (Some (Resolved false)); KeyChosen (Some (Rejected "closed"));
             Acts (ChooseFiles [clip]); Acts ClickGenerate;
             ReaderLoads 0 "data:audio/mpeg;base64,SUQz"] in
  forallb (λ e, negb (grantsKey e)) es = true
  ∧ panels (state (run es initialWorld)) = [KeyGate]
  ∧ analysisCalls (run es initialWorld) = []
  ∧ submittedJobs (run es initialWorld) = [].
Proof.
  intros es.
  assert (forallb (λ e, negb (grantsKey e)) es = true) as Hno by reflexivity.
  destruct (nothing_starts_without_key es Hno) as (_ & H2 & _ & _ & _ & _ & _ & H8 & H9).
  split; [exact Hno|]. split; [exact H2|]. split; [exact H8|exact H9].
Defined.

(** ** Spinners *)



(** ** Instances of the run properties *)

Lemma status_index_in_range_witness :
  REVIEW ≠ ERROR ∧ fst <$> steps !! Z.to_nat (getStatusIndex REVIEW) = Some REVIEW.
Proof.
  assert (REVIEW ≠ ERROR) as Hne by discriminate.
  split; [exact Hne|].
  destruct (status_index_in_range REVIEW) as (_ & _ & _ & H). exact (H Hne).
Defined.

Lemma never_error_status_witness :
  let es := [KeyChosen (Some (Resolved ())); Acts (ChooseFiles [clip]);
             ReaderLoads 0 "data:audio/mpeg;base64,SUQz";
             AnalysisSettles 0 (Resolved (mkContent (Some "a neon cityscape at night")));
             Acts ClickGenerate; JobSettles 0 5 (serviceWith oneVideo)] in
  status (state (run es initialWorld)) = COMPLETED
  ∧ truthy_opt (videoUrl (state (run es initialWorld))) = true.
Proof.
  intros es.
  assert (status (state (run es initialWorld)) = COMPLETED) as Hs by reflexivity.
  split; [exact Hs|].
  destruct (never_error_status es) as [_ H]. exact (H Hs).
Defined.

Lemma held_urls_are_live_witness :
  let es := [KeyChosen (Some (Resolved ())); Acts (ChooseFiles [clip]);
             ReaderLoads 0 "data:audio/mpeg;base64,SUQz";
             AnalysisSettles 0 (Resolved (mkContent (Some "a neon cityscape at night")));
             Acts ClickGenerate; JobSettles 0 5 (serviceWith oneVideo)] in
  videoUrl (state (run es initialWorld)) = Some "blob:1"
  ∧ "blob:1" ∈ live (urls (run es initialWorld)).
Proof.
  intros es.
  assert (videoUrl (state (run es initialWorld)) = Some "blob:1") as Hv by reflexivity.
  split; [exact Hv|].
  destruct (held_urls_are_live es) as (_ & H & _). exact (proj1 (H _ Hv)).
Defined.

